(** * BiasAwareUserCF: bias-aware user-based collaborative filtering

    A shallow embedding of [src/BiasAwareUserCF/main.cpp] and the properties
    of its pipeline: ingestion, bias refinement, residual projection,
    pairwise accumulation, neighbour selection and prediction.

    Conventions of the embedding.
    - [double] is IEEE binary64, the kernel's primitive [float]; every C++
      arithmetic operator is one correctly rounded primitive operation.
      [pow] comes from libm and is a parameter of the development.
    - [int] identifiers are [Z].  The program does no arithmetic on them
      except [maxItemId + 1], which sizes two vectors.
    - [std::unordered_map] is a [gmap]; the order in which a range-for visits
      it is left open by the language and enters through [Traversal].
    - [std::priority_queue<Similarity>] is used through its container
      contract, [PriorityQueue].
    - [std::vector] is a [list]; reading or writing outside it is undefined
      in C++ and is written out in [vec_get] / [vec_alter].
    - Standard input is the list of its lines.  What [operator>>] leaves
      in the variables of a loop body is a parameter that depends on the
      line and on what the variables held before; the line-by-line
      control flow is modelled. *)

From Stdlib Require Import ZArith Floats Lia Sorted.
From stdpp Require Import gmap list fin_maps strings.

Set Warnings "-inexact-float,-clear-no-such-hyp".
Set Default Proof Using "Type".

Abbreviation double := float.

(** ** Numbers *)

Module Double.

(** [(double)n] for an integer [n] below 2^63 in absolute value. *)
Definition of_int (n : Z) : double :=
  if (n <? 0)%Z
  then PrimFloat.opp (PrimFloat.of_uint63 (Uint63.of_Z (- n)))
  else PrimFloat.of_uint63 (Uint63.of_Z n).

(** [x > y] on doubles. *)
Definition gtb (x y : double) : bool := PrimFloat.ltb y x.

End Double.

(** ** Records of the program *)

(** For each user-user pair: running sum of residual products and the
    co-rating count. *)
Module DotData.
Record t := mk { sum : double; count : Z }.
(** The default constructor [DotData()]. *)
Definition new : t := {| sum := 0%float; count := 0 |}.
End DotData.

Module Similarity.
Record t := mk { userB : Z; value : double }.
(** [Similarity::operator<]. *)
Definition lt (a b : t) : bool := PrimFloat.ltb (value a) (value b).
End Similarity.

(** ** Tunable parameters *)

Definition K : Z := 190.
Definition SHRINK : double := 10.0%float.
Definition AMP_FACTOR : double := 1.3%float.
Definition NUM_ITERS : Z := 8.
Definition ALPHA : double := 0.01%float.
Definition REG : double := 0.02%float.

(** Raw cosine similarity. *)
Definition cosineSimilarity (dotProduct magA magB : double) : double :=
  if PrimFloat.eqb magA 0%float || PrimFloat.eqb magB 0%float then 0%float
  else (dotProduct / (PrimFloat.sqrt magA * PrimFloat.sqrt magB))%float.

(** ** Library interfaces *)

(** Range-for over a [std::unordered_map<int, V>] visits every entry once,
    in an order the language leaves to the implementation and which stays
    the same while nothing is inserted.  The model takes that order as a
    function of the container's content; the theorems hold for every such
    function. *)
Class Traversal := {
  traverse : ∀ {V : Type}, gmap Z V → list (Z * V);
  traverse_perm : ∀ {V : Type} (m : gmap Z V), traverse m ≡ₚ map_to_list m
}.

(** [std::priority_queue<Similarity>] with the default [std::less], which
    calls [Similarity::operator<]: [top] is an entry that no other entry
    exceeds, [pop] removes it.  [pq_elements] is the multiset of stored
    entries.  [top] and [pop] on an empty queue are undefined in C++;
    here [pq_top] answers [None] and nothing is said of [pq_pop].  The
    program stores only values [> 0.0], on which [operator<] is a strict
    weak ordering as the container requires. *)
Class PriorityQueue := {
  pq : Type;
  pq_new : pq;
  pq_push : Similarity.t → pq → pq;
  pq_top : pq → option Similarity.t;
  pq_pop : pq → pq;
  pq_size : pq → nat;
  pq_elements : pq → list Similarity.t;
  pq_new_elements : pq_elements pq_new = [];
  pq_push_elements : ∀ x q, pq_elements (pq_push x q) ≡ₚ x :: pq_elements q;
  pq_size_elements : ∀ q, pq_size q = length (pq_elements q);
  pq_top_None : ∀ q, pq_top q = None ↔ pq_elements q = [];
  pq_top_greatest : ∀ q x, pq_top q = Some x →
    ∀ y, y ∈ pq_elements q → Similarity.lt x y = false;
  pq_pop_elements : ∀ q x, pq_top q = Some x →
    pq_elements q ≡ₚ x :: pq_elements (pq_pop q)
}.

(** ** Containers *)

(** [m[k]] on an unordered_map: the stored value, or a value-initialised
    entry that is inserted on the spot. *)
Definition subscript {V : Type} (dflt : V) (k : Z) (m : gmap Z V) : V * gmap Z V :=
  match m !! k with
  | Some v => (v, m)
  | None => (dflt, <[k := dflt]> m)
  end.

(** [m[k]] where the possible insertion cannot be observed later. *)
Definition at_key {V : Type} (dflt : V) (k : Z) (m : gmap Z V) : V :=
  default dflt (m !! k).

(** [v[i]] on a vector.  Outside [0 .. size-1] the access is undefined in
    C++; the model reads [dflt]. *)
Definition vec_get {A : Type} (dflt : A) (v : list A) (i : Z) : A :=
  if (0 <=? i)%Z then default dflt (v !! Z.to_nat i) else dflt.

(** [v[i] = f(v[i])] on a vector.  Outside the vector the model drops the
    write. *)
Definition vec_alter {A : Type} (f : A → A) (v : list A) (i : Z) : list A :=
  if (0 <=? i)%Z then alter f (Z.to_nat i) v else v.

(** [for (int i = lo; i <= hi; i++)]. *)
Definition int_range (lo hi : Z) : list Z :=
  (λ k : nat, (lo + Z.of_nat k)%Z) <$> seq 0 (Z.to_nat (hi - lo + 1)).


(** ** The pipeline of [main] *)

Section Pipeline.
Context `{!Traversal} `{!PriorityQueue}.
(** [pow] of the C math library. *)
Variable pow : double → double → double.

Local Open Scope float_scope.

(** *** 1. Reading the training records

    A training line carries [userId itemId rating]. *)
Record Ingest := mkIngest {
  ratingsByUsers : gmap Z (gmap Z double);
  globalSum : double;
  globalCount : Z;
  maxUserId : Z;
  maxItemId : Z
}.

Definition ingest_start : Ingest :=
  {| ratingsByUsers := ∅; globalSum := 0; globalCount := 0;
     maxUserId := 0; maxItemId := 0 |}.

(** The body of the reading loop for one training line. *)
Definition ingest_line (st : Ingest) (line : Z * Z * double) : Ingest :=
  let '(userId, itemId, rating) := line in
  {| ratingsByUsers :=
       <[userId := <[itemId := rating]> (at_key ∅ userId (ratingsByUsers st))]>
         (ratingsByUsers st);
     globalSum := globalSum st + rating;
     globalCount := (globalCount st + 1)%Z;
     maxUserId := if (maxUserId st <? userId)%Z then userId else maxUserId st;
     maxItemId := if (maxItemId st <? itemId)%Z then itemId else maxItemId st |}.

Definition ingest (lines : list (Z * Z * double)) : Ingest :=
  fold_left ingest_line lines ingest_start.

(** *** 2. Global mean rating *)
Definition globalMean (st : Ingest) : double :=
  if (0 <? globalCount st)%Z
  then globalSum st / Double.of_int (globalCount st)
  else 3.5.

(** *** 3. Initial biases *)
Definition init_userBias (ratings : gmap Z (gmap Z double)) : gmap Z double :=
  fold_left (λ userBias uPair, <[uPair.1 := 0]> userBias) (traverse ratings) ∅.

Definition init_itemBias (maxItem : Z) : list double :=
  replicate (Z.to_nat (maxItem + 1)) 0.

(** *** 4. Gradient-based bias refinement *)

(** The innermost loop body, for the rating [r] of user [u] on item [i]. *)
Definition sgd_update (mean : double) (u i : Z) (r : double)
    (b : gmap Z double * list double) : gmap Z double * list double :=
  let '(userBias, itemBias) := b in
  let bu := at_key 0 u userBias in
  let bi := vec_get 0 itemBias i in
  let pred := mean + bu + bi in
  let err := r - pred in
  (<[u := bu + ALPHA * (err - REG * bu)]> userBias,
   vec_alter (λ cur, cur + ALPHA * (err - REG * bi)) itemBias i).

(** One pass: for each user, for each item the user rated. *)
Definition bias_pass (mean : double) (ratings : gmap Z (gmap Z double))
    (b : gmap Z double * list double) : gmap Z double * list double :=
  fold_left
    (λ b uPair,
       fold_left (λ b mPair, sgd_update mean uPair.1 mPair.1 mPair.2 b)
                 (traverse uPair.2) b)
    (traverse ratings) b.

Definition refine_biases (mean : double) (ratings : gmap Z (gmap Z double))
    (b : gmap Z double * list double) : gmap Z double * list double :=
  Nat.iter (Z.to_nat NUM_ITERS) (bias_pass mean ratings) b.

(** *** 5. Item -> (user, residual)

    [userBias[u]] inserts nothing here: [u] is a key of [ratingsByUsers],
    hence of [userBias] since step 3 (see [refine_biases_dom]). *)
Definition project (mean : double) (userBias : gmap Z double)
    (itemBias : list double) (ratings : gmap Z (gmap Z double)) (maxItem : Z)
    : list (list (Z * double)) :=
  fold_left
    (λ itemToUser uPair,
       fold_left
         (λ itemToUser mPair,
            let baseline := mean + at_key 0 uPair.1 userBias
                            + vec_get 0 itemBias mPair.1 in
            let residual := mPair.2 - baseline in
            vec_alter (λ l, l ++ [(uPair.1, residual)]) itemToUser mPair.1)
         (traverse uPair.2) itemToUser)
    (traverse ratings) (replicate (Z.to_nat (maxItem + 1)) []).

(** *** 6. Magnitudes and dot products *)

Definition add_square (magnitudeMap : gmap Z double) (p : Z * double)
    : gmap Z double :=
  <[p.1 := at_key 0 p.1 magnitudeMap + p.2 * p.2]> magnitudeMap.

Definition magnitudes (maxItem : Z) (itemToUser : list (list (Z * double)))
    : gmap Z double :=
  fold_left (λ magnitudeMap i, fold_left add_square (vec_get [] itemToUser i) magnitudeMap)
            (int_range 1 maxItem) ∅.

(** The body of the two nested index loops: the pair is put in canonical
    order, then [dotAB[uA][uB]] is bumped. *)
Definition add_product (dotAB : gmap Z (gmap Z DotData.t)) (pa pb : Z * double)
    : gmap Z (gmap Z DotData.t) :=
  let '(uA, rA, uB, rB) :=
    if (pb.1 <? pa.1)%Z then (pb.1, pb.2, pa.1, pa.2) else (pa.1, pa.2, pb.1, pb.2) in
  let rowA := at_key ∅ uA dotAB in
  let cell := at_key DotData.new uB rowA in
  <[uA := <[uB := {| DotData.sum := DotData.sum cell + rA * rB;
                     DotData.count := (DotData.count cell + 1)%Z |}]> rowA]> dotAB.

(** [for a in 0 .. n-1, for b in a+1 .. n-1] over one item's list. *)
Fixpoint all_pairs (dotAB : gmap Z (gmap Z DotData.t)) (listU : list (Z * double))
    : gmap Z (gmap Z DotData.t) :=
  match listU with
  | [] => dotAB
  | pa :: rest => all_pairs (fold_left (λ d pb, add_product d pa pb) rest dotAB) rest
  end.

Definition dotProducts (maxItem : Z) (itemToUser : list (list (Z * double)))
    : gmap Z (gmap Z DotData.t) :=
  fold_left (λ dotAB i, all_pairs dotAB (vec_get [] itemToUser i))
            (int_range 1 maxItem) ∅.

(** *** 7. Neighbours: significance weighting and case amplification *)

(** The similarity computed for one accumulated pair; [None] when the loop
    body registers nothing for it ([continue], or [finalSim > 0.0] fails). *)
Definition finalSimilarity (cell : DotData.t) (magA magB : double) : option double :=
  let rawSim := cosineSimilarity (DotData.sum cell) magA magB in
  if rawSim <=? 0 then None
  else
    let factor := Double.of_int (DotData.count cell)
                  / (Double.of_int (DotData.count cell) + SHRINK) in
    let ampSim := pow (abs rawSim) AMP_FACTOR in
    let ampSim := if rawSim <? 0 then - ampSim else ampSim in
    let finalSim := ampSim * factor in
    if Double.gtb finalSim 0 then Some finalSim else None.

(** [pq.push(s); if ((int)pq.size() > K) pq.pop();] on one queue. *)
Definition push_bounded (s : Similarity.t) (q : pq) : pq :=
  let q := pq_push s q in
  if (K <? Z.of_nat (pq_size q))%Z then pq_pop q else q.

(** The same on [topNeighbors[u]], which [operator[]] creates empty when
    [u] has no queue yet. *)
Definition offer (u : Z) (s : Similarity.t) (topNeighbors : gmap Z pq) : gmap Z pq :=
  <[u := push_bounded s (at_key pq_new u topNeighbors)]> topNeighbors.

(** The registration block: for [uA], then for [uB]. *)
Definition register (topNeighbors : gmap Z pq) (c : Z * Z * double) : gmap Z pq :=
  let '(uA, uB, finalSim) := c in
  offer uB {| Similarity.userB := uA; Similarity.value := finalSim |}
    (offer uA {| Similarity.userB := uB; Similarity.value := finalSim |} topNeighbors).

Definition selectNeighbors (dotAB : gmap Z (gmap Z DotData.t))
    (magnitudeMap : gmap Z double) : gmap Z pq :=
  fold_left
    (λ topNeighbors mapA,
       let magA := at_key 0 mapA.1 magnitudeMap in
       fold_left
         (λ topNeighbors mapB,
            let magB := at_key 0 mapB.1 magnitudeMap in
            match finalSimilarity mapB.2 magA magB with
            | Some finalSim => register topNeighbors (mapA.1, mapB.1, finalSim)
            | None => topNeighbors
            end)
         (traverse mapA.2) topNeighbors)
    (traverse dotAB) ∅.

(** *** The fitted model, as the query loop sees it *)
Record Model := mkModel {
  m_ratings : gmap Z (gmap Z double);
  m_mean : double;
  m_maxItem : Z;
  m_userBias : gmap Z double;
  m_itemBias : list double;
  m_top : gmap Z pq
}.

(** Steps 3 and 4 on the ingested records. *)
Definition fit_biases (st : Ingest) : gmap Z double * list double :=
  refine_biases (globalMean st) (ratingsByUsers st)
    (init_userBias (ratingsByUsers st), init_itemBias (maxItemId st)).

(** Step 5 on the ingested records, with the fitted biases. *)
Definition residuals (st : Ingest) : list (list (Z * double)) :=
  project (globalMean st) (fit_biases st).1 (fit_biases st).2
          (ratingsByUsers st) (maxItemId st).

Definition train (lines : list (Z * Z * double)) : Model :=
  let st := ingest lines in
  let itemToUser := residuals st in
  {| m_ratings := ratingsByUsers st;
     m_mean := globalMean st;
     m_maxItem := maxItemId st;
     m_userBias := (fit_biases st).1;
     m_itemBias := (fit_biases st).2;
     m_top := selectNeighbors (dotProducts (maxItemId st) itemToUser)
                              (magnitudes (maxItemId st) itemToUser) |}.

(** *** 8. The test queries *)

(** The body of the [while (!pq.empty())] loop for the popped entry
    [topSim]; the accumulator carries the two sums and the two maps that
    the body reaches through [operator[]]. *)
Definition vote (mean : double) (maxItem : Z) (itemBias : list double) (itemId : Z)
    (acc : double * double * gmap Z (gmap Z double) * gmap Z double)
    (topSim : Similarity.t)
    : double * double * gmap Z (gmap Z double) * gmap Z double :=
  let '(weightedSum, sumOfWeights, ratings, userBias) := acc in
  let neighbor := Similarity.userB topSim in
  let sim := Similarity.value topSim in
  let '(row, ratings) := subscript ∅ neighbor ratings in
  match row !! itemId with
  | Some nr =>
      let '(bn, userBias) := subscript 0 neighbor userBias in
      let nb := mean + bn in
      let nb := if (1 <=? itemId)%Z && (itemId <=? maxItem)%Z
                then nb + vec_get 0 itemBias itemId else nb in
      let residual := nr - nb in
      (weightedSum + residual * sim, sumOfWeights + abs sim, ratings, userBias)
  | None => (weightedSum, sumOfWeights, ratings, userBias)
  end.

(** [while (!pq.empty()) { topSim = pq.top(); pq.pop(); body }]. *)
Fixpoint drain {A : Type} (fuel : nat) (q : pq) (body : A → Similarity.t → A)
    (acc : A) : A :=
  match fuel with
  | O => acc
  | S fuel =>
      if (pq_size q =? 0)%nat then acc
      else match pq_top q with
           | Some topSim => drain fuel (pq_pop q) body (body acc topSim)
           | None => acc
           end
  end.

(** The baseline of a query. *)
Definition query_baseline (m : Model) (userId itemId : Z) : double :=
  let baseline := m_mean m in
  let baseline :=
    match m_userBias m !! userId with
    | Some bu => baseline + bu
    | None => baseline
    end in
  if (1 <=? itemId)%Z && (itemId <=? m_maxItem m)%Z
  then baseline + vec_get 0 (m_itemBias m) itemId else baseline.

(** The neighbour loop of a query, on a copy of the user's queue: the two
    sums, and the two maps as the loop leaves them. *)
Definition neighbour_votes (m : Model) (userId itemId : Z)
    : double * double * gmap Z (gmap Z double) * gmap Z double :=
  let start := (0, 0, m_ratings m, m_userBias m) in
  match m_top m !! userId with
  | Some q =>
      drain (pq_size q) q (vote (m_mean m) (m_maxItem m) (m_itemBias m) itemId) start
  | None => start
  end.

(** One query: the prediction written to the output, and the model as the
    query leaves it. *)
Definition predict (m : Model) (userId itemId : Z) : double * Model :=
  let baseline := query_baseline m userId itemId in
  let '(weightedSum, sumOfWeights, ratings, userBias) :=
    neighbour_votes m userId itemId in
  let prediction :=
    if Double.gtb sumOfWeights 0 then baseline + weightedSum / sumOfWeights
    else baseline in
  (prediction,
   {| m_ratings := ratings; m_mean := m_mean m; m_maxItem := m_maxItem m;
      m_userBias := userBias; m_itemBias := m_itemBias m; m_top := m_top m |}).

(** The query loop: predictions in input order, and the final model. *)
Definition answer (st : list double * Model) (query : Z * Z) : list double * Model :=
  let '(prediction, m) := predict st.2 query.1 query.2 in
  (st.1 ++ [prediction], m).

Definition run_queries (m : Model) (queries : list (Z * Z)) : list double * Model :=
  fold_left answer queries ([], m).

(** The whole run: the lines written to standard output. *)
Definition main (lines : list (Z * Z * double)) (queries : list (Z * Z)) : list double :=
  (run_queries (train lines) queries).1.

(** *** The input as lines of text

    [getline] hands the program one line at a time.  The body of each
    reading loop declares its variables without initialiser
    ([int userId, itemId; double rating;]) and then extracts into them
    ([ss >> userId >> itemId >> rating]).  An extraction that fails
    leaves the fields it does not reach as they were, so what the body
    goes on with depends on the line and on what the variables held
    before, which C++ leaves indeterminate.  Both enter as parameters:
    the extraction as a function of the line and of the previous content
    of the variables, and the previous content as one value for each
    iteration of the loop. *)
Variable extract_rating : string → Z * Z * double → Z * Z * double.
Variable uninit_rating : nat → Z * Z * double.
Variable extract_query : string → Z * Z → Z * Z.
Variable uninit_query : nat → Z * Z.

(** The first reading loop, from its iteration [n] on: a ["train dataset"]
    line is skipped, a ["test dataset"] line ends the loop, any other line
    goes through the extraction and is ingested.  The result is the
    ingested state and the lines not yet read. *)
Fixpoint read_training (input : list string) (n : nat) (st : Ingest)
    : Ingest * list string :=
  match input with
  | [] => (st, [])
  | line :: rest =>
      if decide (line = "train dataset") then read_training rest (S n) st
      else if decide (line = "test dataset") then (st, rest)
      else read_training rest (S n)
             (ingest_line st (extract_rating line (uninit_rating n)))
  end.

(** Steps 2 to 7 on the ingested state. *)
Definition fit (st : Ingest) : Model :=
  let itemToUser := residuals st in
  {| m_ratings := ratingsByUsers st;
     m_mean := globalMean st;
     m_maxItem := maxItemId st;
     m_userBias := (fit_biases st).1;
     m_itemBias := (fit_biases st).2;
     m_top := selectNeighbors (dotProducts (maxItemId st) itemToUser)
                              (magnitudes (maxItemId st) itemToUser) |}.

(** The body of the second reading loop in its iteration [n]: an empty
    line is skipped, any other line goes through the extraction and is
    answered as a query. *)
Definition answer_line (n : nat) (st : list double * Model) (line : string)
    : list double * Model :=
  if decide (line = "") then st
  else answer st (extract_query line (uninit_query n)).

(** The second reading loop, from its iteration [n] on. *)
Fixpoint read_queries (input : list string) (n : nat) (st : list double * Model)
    : list double * Model :=
  match input with
  | [] => st
  | line :: rest => read_queries rest (S n) (answer_line n st line)
  end.

(** The program on its standard input: the lines written to standard
    output. *)
Definition program (input : list string) : list double :=
  let '(st, rest) := read_training input 0 ingest_start in
  (read_queries rest 0 ([], fit st)).1.

End Pipeline.

Arguments Model {_}.
Arguments mkModel {_}.

(** ** Reference implementations of the library interfaces

    Used to run the program on concrete inputs.  The general theorems
    quantify over every implementation; these two make the examples
    executable. *)

Module Reference.

(** Visit the entries in the order [map_to_list] lists them. *)
Definition traversal : Traversal :=
  {| traverse := λ V m, map_to_list m;
     traverse_perm := λ V m, reflexivity (map_to_list m) |}.

(** A queue kept as the list of its entries in insertion order.  [take_max]
    scans it once, holding the best entry so far and moving on only to a
    strictly greater one. *)
Fixpoint take_max (best : Similarity.t) (l : list Similarity.t)
    : Similarity.t * list Similarity.t :=
  match l with
  | [] => (best, [])
  | y :: l' =>
      if Similarity.lt best y
      then let r := take_max y l' in (r.1, best :: r.2)
      else let r := take_max best l' in (r.1, y :: r.2)
  end.

Definition top (q : list Similarity.t) : option Similarity.t :=
  match q with
  | [] => None
  | b :: l => Some (take_max b l).1
  end.

Definition pop (q : list Similarity.t) : list Similarity.t :=
  match q with
  | [] => []
  | b :: l => (take_max b l).2
  end.

(** A stand-in for libm's [pow].  It agrees with [pow] at base 1.0, where
    [pow(1, y)] is 1 for every [y]; the examples call it at no other
    base. *)
Definition pow (x y : double) : double := x.

End Reference.

(** ** Notions used to state the properties *)

(** The residual recorded for user [u] in one item's list. *)
Fixpoint residual_of (u : Z) (listU : list (Z * double)) : option double :=
  match listU with
  | [] => None
  | p :: rest => if decide (p.1 = u) then Some p.2 else residual_of u rest
  end.

(** What item [i] contributes to the accumulator cell of the pair
    [(uA, uB)]: the product of the two residuals and one co-rating, when
    both users are in the item's list. *)
Definition co_rating (itemToUser : list (list (Z * double))) (uA uB : Z)
    (cell : DotData.t) (i : Z) : DotData.t :=
  match residual_of uA (vec_get [] itemToUser i),
        residual_of uB (vec_get [] itemToUser i) with
  | Some rA, Some rB =>
      {| DotData.sum := (DotData.sum cell + rA * rB)%float;
         DotData.count := (DotData.count cell + 1)%Z |}
  | _, _ => cell
  end.

(** Both users are in the list of item [i]. *)
Definition co_rated (itemToUser : list (list (Z * double))) (uA uB i : Z) : Prop :=
  is_Some (residual_of uA (vec_get [] itemToUser i))
  ∧ is_Some (residual_of uB (vec_get [] itemToUser i)).

(** Every stored cell counts at least one co-rating. *)
Definition counts_positive (dotAB : gmap Z (gmap Z DotData.t)) : Prop :=
  ∀ a row b cell, dotAB !! a = Some row → row !! b = Some cell →
                  (1 ≤ DotData.count cell)%Z.

(** The extraction yields [a] from [line] whatever the variables held
    before: the line supplies every field. *)
Definition yields {A : Type} (extract : string → A → A) (line : string) (a : A) : Prop :=
  ∀ before, extract line before = a.

(** What item [i] contributes to the magnitude of user [u]. *)
Definition squared_residual (itemToUser : list (list (Z * double))) (u : Z)
    (mag : double) (i : Z) : double :=
  match residual_of u (vec_get [] itemToUser i) with
  | Some r => (mag + r * r)%float
  | None => mag
  end.

(** Every cell of the nested accumulator is keyed by a pair in [R]. *)
Definition cells_within (R : Z → Z → Prop) (dotAB : gmap Z (gmap Z DotData.t)) : Prop :=
  ∀ a row b, dotAB !! a = Some row → is_Some (row !! b) → R a b.

(** The users of one list are distinct, and every ordered pair of them is
    in [R]. *)
Definition list_within (R : Z → Z → Prop) (listU : list (Z * double)) : Prop :=
  NoDup listU.*1 ∧ ∀ a b, a ∈ listU.*1 → b ∈ listU.*1 → (a < b)%Z → R a b.

(** The accumulators hold the contributions of the items [lo .. maxItem],
    taken in increasing item order: each canonical pair's cell, and each
    user's magnitude; and no cell is keyed by a pair out of canonical
    order. *)
Definition accumulated_from (lo maxItem : Z) (itemToUser : list (list (Z * double)))
    (dotAB : gmap Z (gmap Z DotData.t)) (magnitudeMap : gmap Z double) : Prop :=
  (∀ uA uB : Z, (uA < uB)%Z →
     at_key DotData.new uB (at_key ∅ uA dotAB)
     = fold_left (co_rating itemToUser uA uB) (int_range lo maxItem) DotData.new)
  ∧ (∀ u : Z,
       at_key 0%float u magnitudeMap
       = fold_left (squared_residual itemToUser u) (int_range lo maxItem) 0%float)
  ∧ cells_within Z.lt dotAB.

Section Notions.
Context `{!Traversal}.
Local Open Scope float_scope.

(** The retained ratings [(user, item, rating)], in the order in which the
    nested range-for of steps 4 and 5 visits them. *)
Definition stored_ratings (ratings : gmap Z (gmap Z double)) : list (Z * Z * double) :=
  uPair ← traverse ratings;
  mPair ← traverse uPair.2;
  [(uPair.1, mPair.1, mPair.2)].

(** Arithmetic mean of a sequence of ratings, summed from [0.0] in the
    order given; [3.5] for the empty sequence. *)
Definition mean_or_default (rs : list double) : double :=
  match rs with
  | [] => 3.5
  | _ => fold_left PrimFloat.add rs 0 / Double.of_int (Z.of_nat (length rs))
  end.

(** The entry that the projection records for a stored rating. *)
Definition residual_entry (mean : double) (userBias : gmap Z double)
    (itemBias : list double) (t : Z * Z * double) : Z * double :=
  (t.1.1, t.2 - (mean + at_key 0 t.1.1 userBias + vec_get 0 itemBias t.1.2)).

(** The projection appends, for each stored rating in stored order, one
    entry to the list of its item. *)
Definition push_residual (mean : double) (userBias : gmap Z double)
    (itemBias : list double) (itemToUser : list (list (Z * double)))
    (t : Z * Z * double) : list (list (Z * double)) :=
  vec_alter (λ l, l ++ [residual_entry mean userBias itemBias t]) itemToUser t.1.2.

(** The stored ratings whose item id indexes slot [n] of a vector. *)
Definition ratings_of_slot (n : nat) (stored : list (Z * Z * double))
    : list (Z * Z * double) :=
  filter (λ t : Z * Z * double, (0 ≤ t.1.2)%Z ∧ Z.to_nat t.1.2 = n) stored.

End Notions.

Section NeighbourNotions.
Context `{!Traversal} `{!PriorityQueue}.
Variable pow : double → double → double.

(** The pairs for which the registration block runs, in loop order, each
    with its [finalSim]. *)
Definition candidates (dotAB : gmap Z (gmap Z DotData.t)) (magnitudeMap : gmap Z double)
    : list (Z * Z * double) :=
  mapA ← traverse dotAB;
  mapB ← traverse mapA.2;
  match finalSimilarity pow mapB.2 (at_key 0%float mapA.1 magnitudeMap)
                        (at_key 0%float mapB.1 magnitudeMap) with
  | Some finalSim => [(mapA.1, mapB.1, finalSim)]
  | None => []
  end.

(** The entries pushed onto [topNeighbors[u]] while the registrations [cs]
    run: the candidate set of [u] before any eviction. *)
Definition offered (u : Z) (cs : list (Z * Z * double)) : list Similarity.t :=
  c ← cs;
  (if decide (c.1.1 = u)
   then [{| Similarity.userB := c.1.2; Similarity.value := c.2 |}] else [])
  ++ (if decide (c.1.2 = u)
      then [{| Similarity.userB := c.1.1; Similarity.value := c.2 |}] else []).

(** The entries held for user [u]. *)
Definition neighbours (u : Z) (topNeighbors : gmap Z pq) : list Similarity.t :=
  pq_elements (at_key pq_new u topNeighbors).


End NeighbourNotions.


Section QueryNotions.
Context `{!PriorityQueue}.
Local Open Scope float_scope.

(** A baseline that starts from the global mean, adds the user's bias when
    the user is among [users], and adds the item's bias when the item id
    lies in [lo .. maxItemId]. *)
Definition baseline_with_items_from (lo : Z) (users : list Z) (m : Model)
    (userId itemId : Z) : double :=
  let b := m_mean m in
  let b := if bool_decide (userId ∈ users)
           then b + at_key 0 userId (m_userBias m) else b in
  if (lo <=? itemId)%Z && (itemId <=? m_maxItem m)%Z
  then b + vec_get 0 (m_itemBias m) itemId else b.

(** The entries the [while (!pq.empty())] loop pops, in order. *)
Fixpoint pops (fuel : nat) (q : pq) : list Similarity.t :=
  match fuel with
  | O => []
  | S fuel =>
      if (pq_size q =? 0)%nat then []
      else match pq_top q with
           | Some topSim => topSim :: pops fuel (pq_pop q)
           | None => []
           end
  end.

(** The entries a query for [userId] pops, in order; none when the user
    has no queue. *)
Definition query_pops (m : Model) (userId : Z) : list Similarity.t :=
  match m_top m !! userId with
  | Some q => pops (pq_size q) q
  | None => []
  end.

(** The vote of a popped neighbour, read from the list of the queried
    item: its stored residual weighted by its similarity, when it is in
    the list. *)
Definition stored_vote (listU : list (Z * double)) (sums : double * double)
    (x : Similarity.t) : double * double :=
  match residual_of (Similarity.userB x) listU with
  | Some res => (sums.1 + res * Similarity.value x, sums.2 + abs (Similarity.value x))
  | None => sums
  end.

End QueryNotions.


(** ** Concrete inputs

    Training streams and queue contents on which the program is run below,
    with the reference traversal and queue. *)

Module Inputs.
Local Open Scope float_scope.

(** Two users who rated item 0 and nothing else. *)
Definition item_zero_only : list (Z * Z * double) :=
  [(1%Z, 0%Z, 4.0); (2%Z, 0%Z, 2.0)].

(** One (user, item) pair rated twice; the pair is on item 0. *)
Definition rated_twice : list (Z * Z * double) :=
  [(1%Z, 0%Z, 5.0); (1%Z, 0%Z, 1.0)].

(** Two users, two items; both rated item 1. *)
Definition two_users : list (Z * Z * double) :=
  [(1%Z, 1%Z, 4.0); (2%Z, 1%Z, 2.0); (1%Z, 2%Z, 3.0)].




(** A queue map in which user 0 holds [K] entries, of similarities
    [1/256 .. 190/256]. *)
Definition full_queue : gmap Z (list Similarity.t) :=
  {[ 0%Z := (λ k : nat, Similarity.mk (Z.of_nat k) (Double.of_int (Z.of_nat k) / 256))
             <$> seq 1 190 ]}.

(** An accumulator with the single pair (1, 2), co-rated once. *)
Definition one_pair : gmap Z (gmap Z DotData.t) :=
  {[ 1%Z := {[ 2%Z := {| DotData.sum := 1; DotData.count := 1 |} ]} ]}.

Definition unit_magnitudes : gmap Z double := {[ 1%Z := 1; 2%Z := 1 ]}.

(** Users 1 and 2 agree on item 1; user 3 rated item 2 alone. *)
Definition likeminded : list (Z * Z * double) :=
  [(1%Z, 1%Z, 5.0); (2%Z, 1%Z, 5.0); (3%Z, 2%Z, 1.0)].

(** Every rating equals the global mean. *)
Definition same_rating : list (Z * Z * double) :=
  [(1%Z, 1%Z, 4.0); (2%Z, 1%Z, 4.0); (2%Z, 2%Z, 4.0)].

(** A standard input: the training section of [two_users], with a second
    header line among the records, and the lines that follow the
    ["test dataset"] line. *)
Definition training_text : list string :=
  ["train dataset"; "1 1 4.0"; "2 1 2.0"; "train dataset"; "1 2 3.0"].

Definition query_text : list string := ["1 1"; ""; "3 2"].

(** Stand-ins for [ss >> userId >> itemId >> rating] and
    [ss >> userId >> itemId] that know the lines above.  On an empty line
    nothing is extracted and nothing is written; on any other line the
    first extraction fails, which writes 0 to [userId] and leaves the
    other fields as they were. *)
Definition extract_rating (line : string) (before : Z * Z * double) : Z * Z * double :=
  if decide (line = "1 1 4.0") then (1%Z, 1%Z, 4.0)
  else if decide (line = "2 1 2.0") then (2%Z, 1%Z, 2.0)
  else if decide (line = "1 2 3.0") then (1%Z, 2%Z, 3.0)
  else if decide (line = "") then before
  else (0%Z, before.1.2, before.2).

Definition extract_query (line : string) (before : Z * Z) : Z * Z :=
  if decide (line = "1 1") then (1%Z, 1%Z)
  else if decide (line = "3 2") then (3%Z, 2%Z)
  else if decide (line = "") then before
  else (0%Z, before.2).

(** Contents for the variables of the two loops before the extraction:
    zeros, and what the previous iteration left when the lines
    [query_text] are followed by one more line. *)
Definition zero_rating (n : nat) : Z * Z * double := (0%Z, 0%Z, 0).

Definition zero_query (n : nat) : Z * Z := (0%Z, 0%Z).

Definition left_over_query (n : nat) : Z * Z :=
  match n with
  | 1%nat => (1%Z, 1%Z)
  | 2%nat => (1%Z, 1%Z)
  | 3%nat => (3%Z, 2%Z)
  | _ => (0%Z, 0%Z)
  end.

End Inputs.


(** ** Properties *)

Local Open Scope float_scope.

(** *** Order facts about [operator<] on doubles *)

Lemma SFltb_irrefl (x : spec_float) : SFltb x x = false.
Proof.
  unfold SFltb, SFcompare.
  destruct x as [s|s| |s m e]; try done; try by destruct s.
  destruct s; rewrite Z.compare_refl, Pos.compare_cont_refl; done.
Qed.

Lemma SFltb_trans (x y z : spec_float) :
  SFltb x y = true → SFltb y z = true → SFltb x z = true.
Proof.
  unfold SFltb, SFcompare.
  destruct x as [sx|sx| |sx mx ex], y as [sy|sy| |sy my ey], z as [sz|sz| |sz mz ez];
    repeat match goal with s : bool |- _ => destruct s end; try done.
  all: change (Pos.compare_cont Eq) with Pos.compare.
  all: repeat match goal with
       | |- context [(?a ?= ?b)%Z] => destruct (Z.compare_spec a b)
       | |- context [(?a ?= ?b)%positive] => destruct (Pos.compare_spec a b)
       end; simpl; try done; try lia.
Qed.

Lemma Similarity_lt_irrefl (a : Similarity.t) : Similarity.lt a a = false.
Proof. unfold Similarity.lt. rewrite ltb_spec. apply SFltb_irrefl. Qed.

Lemma Similarity_lt_tie (a b : Similarity.t) :
  Similarity.value a = Similarity.value b → Similarity.lt a b = false.
Proof.
  intros E. unfold Similarity.lt. rewrite E, ltb_spec. apply SFltb_irrefl.
Qed.

Lemma Similarity_lt_trans (a b c : Similarity.t) :
  Similarity.lt a b = true → Similarity.lt b c = true → Similarity.lt a c = true.
Proof. unfold Similarity.lt. rewrite !ltb_spec. apply SFltb_trans. Qed.



(** *** The reference queue meets the container contract *)

Lemma take_max_perm (best : Similarity.t) (l : list Similarity.t) :
  best :: l ≡ₚ (Reference.take_max best l).1 :: (Reference.take_max best l).2.
Proof.
  revert best. induction l as [|y l IH]; intros best; simpl; [done|].
  destruct (Similarity.lt best y); simpl.
  - etrans; [apply perm_skip, (IH y) | apply perm_swap].
  - etrans; [apply perm_swap|].
    etrans; [apply perm_skip, (IH best) | apply perm_swap].
Qed.

Lemma take_max_above (best : Similarity.t) (l : list Similarity.t) :
  (Reference.take_max best l).1 = best
  ∨ Similarity.lt best (Reference.take_max best l).1 = true.
Proof.
  revert best. induction l as [|y l IH]; intros best; simpl; [by left|].
  destruct (Similarity.lt best y) eqn:E; simpl; [|apply IH].
  right. destruct (IH y) as [-> | H]; [done|].
  by apply Similarity_lt_trans with y.
Qed.

Lemma take_max_greatest (best : Similarity.t) (l : list Similarity.t) (y : Similarity.t) :
  y ∈ best :: l → Similarity.lt (Reference.take_max best l).1 y = false.
Proof.
  revert best y. induction l as [|z l IH]; intros best y Hy; simpl.
  { apply list_elem_of_singleton in Hy. subst y. apply Similarity_lt_irrefl. }
  destruct (Similarity.lt best z) eqn:E; simpl.
  - apply elem_of_cons in Hy as [Hy | Hy]; [subst y | by apply IH].
    destruct (Similarity.lt (Reference.take_max z l).1 best) eqn:F; [|done].
    assert (Similarity.lt (Reference.take_max z l).1 z = true) as G
      by by apply Similarity_lt_trans with best.
    rewrite (IH z z) in G; [done | left].
  - apply elem_of_cons in Hy as [Hy | Hy]; [subst y; apply IH; left|].
    apply elem_of_cons in Hy as [Hy | Hy]; [subst y | apply IH; by right].
    destruct (Similarity.lt (Reference.take_max best l).1 z) eqn:F; [|done].
    destruct (take_max_above best l) as [G | G].
    + rewrite G in F. congruence.
    + rewrite (Similarity_lt_trans _ _ _ G F) in E. done.
Qed.

Module ReferenceQueue.

Program Definition queue : PriorityQueue :=
  {| pq := list Similarity.t;
     pq_new := [];
     pq_push := λ x q, q ++ [x];
     pq_top := Reference.top;
     pq_pop := Reference.pop;
     pq_size := length;
     pq_elements := λ q, q |}.
Next Obligation. done. Qed.
Next Obligation. intros x q. simpl. by rewrite Permutation_app_comm. Qed.
Next Obligation. done. Qed.
Next Obligation. intros [|b l]; simpl; split; done. Qed.
Next Obligation.
  intros [|b l] x; simpl; [done|]. intros [= <-] y Hy. by apply take_max_greatest.
Qed.
Next Obligation.
  intros [|b l] x; simpl; [done|]. intros [= <-]. apply take_max_perm.
Qed.

End ReferenceQueue.

(** *** Vectors *)

Lemma vec_get_alter_eq {A : Type} (d : A) (f : A → A) (v : list A) (i : Z) :
  (0 ≤ i < Z.of_nat (length v))%Z →
  vec_get d (vec_alter f v i) i = f (vec_get d v i).
Proof.
  intros Hi. unfold vec_get, vec_alter.
  destruct (Z.leb_spec 0 i) as [_|?]; [|lia].
  rewrite list_lookup_alter_eq.
  destruct (lookup_lt_is_Some_2 v (Z.to_nat i)) as [x ->]; [lia | done].
Qed.

Lemma vec_get_alter_ne {A : Type} (d : A) (f : A → A) (v : list A) (i j : Z) :
  i ≠ j → vec_get d (vec_alter f v i) j = vec_get d v j.
Proof.
  intros Hij. unfold vec_get, vec_alter.
  destruct (Z.leb_spec 0 j) as [Hj|?]; [|done].
  destruct (Z.leb_spec 0 i) as [Hi|?]; [|done].
  rewrite list_lookup_alter_ne; [done | lia].
Qed.

Lemma vec_get_nonneg {A : Type} (d : A) (v : list A) (i : Z) :
  (0 ≤ i)%Z → vec_get d v i = default d (v !! Z.to_nat i).
Proof. intros Hi. unfold vec_get. by destruct (Z.leb_spec 0 i); [|lia]. Qed.

(** *** Folds *)

Lemma fold_left_bind {A B C : Type} (f : C → B → C) (g : A → list B)
    (l : list A) (c : C) :
  fold_left f (l ≫= g) c = fold_left (λ c a, fold_left f (g a) c) l c.
Proof.
  revert c. induction l as [|a l IH]; intros c; [done|].
  rewrite bind_cons, fold_left_app. apply IH.
Qed.

Lemma fold_left_pointwise {A B : Type} (f g : B → A → B) (l : list A) (b : B) :
  (∀ b a, f b a = g b a) → fold_left f l b = fold_left g l b.
Proof.
  intros E. revert b. induction l as [|a l IH]; intros b; [done|].
  simpl. by rewrite E, IH.
Qed.

Lemma iter_pointwise {B : Type} (f g : B → B) (n : nat) (b : B) :
  (∀ b, f b = g b) → Nat.iter n f b = Nat.iter n g b.
Proof. intros E. induction n as [|n IH]; [done|]. simpl. by rewrite IH, E. Qed.

Lemma iter_fold_left {A B : Type} (f : B → A → B) (l : list A) (n : nat) (b : B) :
  Nat.iter n (fold_left f l) b = fold_left f (mjoin (replicate n l)) b.
Proof.
  revert b. induction n as [|n IH]; intros b; [done|].
  rewrite Nat.iter_succ_r, IH. simpl. by rewrite fold_left_app.
Qed.

(** *** Reading the training records *)

Lemma ingest_line_sum (lines : list (Z * Z * double)) (st : Ingest) :
  globalSum (fold_left ingest_line lines st)
  = fold_left PrimFloat.add (lines.*2) (globalSum st).
Proof.
  revert st. induction lines as [|[[u i] r] lines IH]; intros st; [done|].
  simpl. rewrite IH. done.
Qed.

Lemma ingest_line_count (lines : list (Z * Z * double)) (st : Ingest) :
  globalCount (fold_left ingest_line lines st)
  = (globalCount st + Z.of_nat (length lines))%Z.
Proof.
  revert st. induction lines as [|[[u i] r] lines IH]; intros st; simpl; [lia|].
  rewrite IH. simpl. lia.
Qed.

(** C3 (as amended): for every training stream, globalMean is the sum of
    the ratings of all training records, each record counted once whether
    or not a later record for the same (user, item) pair overwrites it,
    divided by the number of records; it is 3.5 when there are none. *)
Theorem globalMean_all_records (lines : list (Z * Z * double)) :
  globalMean (ingest lines) = mean_or_default (lines.*2).
Proof.
  unfold globalMean, ingest.
  rewrite ingest_line_count, ingest_line_sum.
  change (globalCount ingest_start) with 0%Z. rewrite Z.add_0_l.
  destruct lines as [|l lines]; [done|].
  unfold mean_or_default. rewrite length_fmap, fmap_cons.
  destruct (Z.ltb_spec 0 (Z.of_nat (length (l :: lines)))) as [_|Hle];
    [done | simpl in Hle; lia].
Qed.

Lemma ingest_line_users (lines : list (Z * Z * double)) (st : Ingest) :
  dom (ratingsByUsers (fold_left ingest_line lines st))
  = dom (ratingsByUsers st) ∪ list_to_set (lines.*1.*1).
Proof.
  revert st. induction lines as [|[[u i] r] lines IH]; intros st; simpl.
  { set_solver. }
  rewrite IH. simpl. rewrite dom_insert_L. set_solver.
Qed.

Lemma ingest_users (lines : list (Z * Z * double)) (u : Z) :
  u ∈ dom (ratingsByUsers (ingest lines)) ↔ u ∈ lines.*1.*1.
Proof.
  unfold ingest. rewrite ingest_line_users. simpl. rewrite dom_empty_L. set_solver.
Qed.

(** *** The range of item ids *)

Lemma ingest_line_items (lines : list (Z * Z * double)) (st : Ingest) :
  (∀ u row i, ratingsByUsers st !! u = Some row → is_Some (row !! i) →
              (i ≤ maxItemId st)%Z) →
  ∀ u row i, ratingsByUsers (fold_left ingest_line lines st) !! u = Some row →
             is_Some (row !! i) → (i ≤ maxItemId (fold_left ingest_line lines st))%Z.
Proof.
  revert st. induction lines as [|[[u' i'] r'] lines IH]; intros st Hst; [done|].
  simpl. apply IH. simpl. intros u row i.
  destruct (decide (u' = u)) as [->|Hu].
  - rewrite lookup_insert_eq. intros [= <-].
    destruct (decide (i' = i)) as [->|Hi].
    + intros _. destruct (Z.ltb_spec (maxItemId st) i); lia.
    + rewrite lookup_insert_ne by done. unfold at_key.
      destruct (ratingsByUsers st !! u) as [row|] eqn:E; simpl; [|by intros [? ?]].
      intros Hrow. pose proof (Hst u row i E Hrow).
      destruct (Z.ltb_spec (maxItemId st) i'); lia.
  - rewrite lookup_insert_ne by done. intros Hrow Hi.
    pose proof (Hst u row i Hrow Hi). destruct (Z.ltb_spec (maxItemId st) i'); lia.
Qed.

Lemma ingest_items (lines : list (Z * Z * double)) (u i : Z) (row : gmap Z double) :
  ratingsByUsers (ingest lines) !! u = Some row → is_Some (row !! i) →
  (i ≤ maxItemId (ingest lines))%Z.
Proof.
  apply ingest_line_items. intros u' row' i'. simpl. by rewrite lookup_empty.
Qed.


(** *** Magnitudes and dot products *)

Lemma vec_get_Forall {A : Type} (P : A → Prop) (d : A) (v : list A) (i : Z) :
  Forall P v → P d → P (vec_get d v i).
Proof.
  intros Hv Hd. unfold vec_get. destruct (0 <=? i)%Z; [|done].
  destruct (v !! Z.to_nat i) as [x|] eqn:E; [|done].
  simpl. by apply (Forall_lookup_1 P v (Z.to_nat i)).
Qed.

Lemma residual_of_None (u : Z) (listU : list (Z * double)) :
  u ∉ listU.*1 → residual_of u listU = None.
Proof.
  induction listU as [|p l IH]; [done|]. simpl.
  intros Hu%not_elem_of_cons. destruct Hu as [Hne Hu].
  rewrite decide_False; [by apply IH | done].
Qed.

Lemma residual_of_Some (u : Z) (r : double) (listU : list (Z * double)) :
  residual_of u listU = Some r → (u, r) ∈ listU.
Proof.
  induction listU as [|[u' r'] l IH]; [done|]. simpl.
  case_decide as E; simpl in E.
  - intros [= ->]. subst. left.
  - intros Hr. right. by apply IH.
Qed.

Lemma add_square_fold (u : Z) (listU : list (Z * double)) (magnitudeMap : gmap Z double) :
  NoDup listU.*1 →
  at_key 0 u (fold_left add_square listU magnitudeMap)
  = match residual_of u listU with
    | Some r => at_key 0 u magnitudeMap + r * r
    | None => at_key 0 u magnitudeMap
    end.
Proof.
  revert magnitudeMap.
  induction listU as [|[u' r'] l IH]; intros magnitudeMap Hnd; [done|].
  apply NoDup_cons in Hnd as [Hu' Hnd]. simpl in *.
  rewrite IH by done. unfold add_square, at_key. simpl.
  case_decide as E.
  - subst u'. rewrite residual_of_None by done. by rewrite lookup_insert_eq.
  - by rewrite lookup_insert_ne.
Qed.

Lemma magnitudes_fold (u : Z) (itemToUser : list (list (Z * double)))
    (items : list Z) (magnitudeMap : gmap Z double) :
  Forall (λ listU, NoDup listU.*1) itemToUser →
  at_key 0 u (fold_left (λ magnitudeMap i,
                           fold_left add_square (vec_get [] itemToUser i) magnitudeMap)
                        items magnitudeMap)
  = fold_left (squared_residual itemToUser u) items (at_key 0 u magnitudeMap).
Proof.
  intros Hnd. revert magnitudeMap.
  induction items as [|i items IH]; intros magnitudeMap; [done|].
  simpl. rewrite IH. f_equal. unfold squared_residual.
  apply add_square_fold, vec_get_Forall; [done | constructor].
Qed.

(** The cell of the pair [(a, b)] in the nested accumulator. *)
#[local] Abbreviation cell_at dotAB a b := (at_key DotData.new b (at_key ∅ a dotAB)).
#[local] Abbreviation bumped cell x :=
  {| DotData.sum := DotData.sum cell + x; DotData.count := Z.add (DotData.count cell) 1 |}.

Lemma add_product_cell (dotAB : gmap Z (gmap Z DotData.t)) (pa pb : Z * double) (a b : Z) :
  (a < b)%Z →
  cell_at (add_product dotAB pa pb) a b
  = if decide (pa.1 = a ∧ pb.1 = b) then bumped (cell_at dotAB a b) (pa.2 * pb.2)
    else if decide (pa.1 = b ∧ pb.1 = a) then bumped (cell_at dotAB a b) (pb.2 * pa.2)
    else cell_at dotAB a b.
Proof.
  intros Hab. destruct pa as [ua ra], pb as [ub rb]. unfold add_product. simpl.
  destruct (Z.ltb_spec ub ua) as [Hlt|Hge]; unfold at_key.
  - destruct (decide (ua = a ∧ ub = b)) as [[? ?]|_]; [lia|].
    destruct (decide (ua = b ∧ ub = a)) as [[-> ->]|Hne].
    + rewrite lookup_insert_eq. simpl. by rewrite lookup_insert_eq.
    + destruct (decide (ub = a)) as [->|Hua].
      * rewrite lookup_insert_eq. simpl.
        rewrite lookup_insert_ne; [done|]. intros ->. by apply Hne.
      * by rewrite lookup_insert_ne.
  - destruct (decide (ua = a ∧ ub = b)) as [[-> ->]|Hne].
    + rewrite lookup_insert_eq. simpl. by rewrite lookup_insert_eq.
    + destruct (decide (ua = b ∧ ub = a)) as [[? ?]|_]; [lia|].
      destruct (decide (ua = a)) as [->|Hua].
      * rewrite lookup_insert_eq. simpl.
        rewrite lookup_insert_ne; [done|]. intros ->. by apply Hne.
      * by rewrite lookup_insert_ne.
Qed.

Lemma add_product_fold (dotAB : gmap Z (gmap Z DotData.t)) (pa : Z * double)
    (rest : list (Z * double)) (a b : Z) :
  (a < b)%Z → NoDup rest.*1 →
  cell_at (fold_left (λ d pb, add_product d pa pb) rest dotAB) a b
  = if decide (pa.1 = a) then
      match residual_of b rest with
      | Some rb => bumped (cell_at dotAB a b) (pa.2 * rb)
      | None => cell_at dotAB a b
      end
    else if decide (pa.1 = b) then
      match residual_of a rest with
      | Some ra => bumped (cell_at dotAB a b) (ra * pa.2)
      | None => cell_at dotAB a b
      end
    else cell_at dotAB a b.
Proof.
  intros Hab. revert dotAB.
  induction rest as [|[u r] rest IH]; intros dotAB Hnd.
  { simpl. repeat case_decide; done. }
  apply NoDup_cons in Hnd as [Hu Hnd]. simpl in Hu.
  simpl. rewrite IH by done. rewrite add_product_cell by done. simpl.
  destruct (decide (pa.1 = a)) as [Ea|Ea].
  - rewrite (decide_False (P := pa.1 = b ∧ u = a)) by lia.
    destruct (decide (u = b)) as [->|Eu].
    + rewrite decide_True by done. by rewrite residual_of_None.
    + rewrite decide_False by naive_solver. done.
  - rewrite (decide_False (P := pa.1 = a ∧ u = b)) by naive_solver.
    destruct (decide (pa.1 = b)) as [Eb|Eb]; [|by rewrite decide_False by naive_solver].
    destruct (decide (u = a)) as [->|Eu].
    + rewrite decide_True by done. by rewrite residual_of_None.
    + rewrite decide_False by naive_solver. done.
Qed.

Lemma all_pairs_cell (dotAB : gmap Z (gmap Z DotData.t)) (listU : list (Z * double))
    (a b : Z) :
  (a < b)%Z → NoDup listU.*1 →
  cell_at (all_pairs dotAB listU) a b
  = match residual_of a listU, residual_of b listU with
    | Some ra, Some rb => bumped (cell_at dotAB a b) (ra * rb)
    | _, _ => cell_at dotAB a b
    end.
Proof.
  intros Hab. revert dotAB.
  induction listU as [|[u r] rest IH]; intros dotAB Hnd; [done|].
  apply NoDup_cons in Hnd as [Hu Hnd]. simpl in Hu.
  simpl. rewrite IH by done. rewrite add_product_fold by done. simpl.
  destruct (decide (u = a)) as [->|Ea].
  - rewrite (residual_of_None a rest) by done.
    rewrite decide_False by lia. done.
  - destruct (decide (u = b)) as [->|Eb].
    + rewrite (residual_of_None b rest) by done.
      destruct (residual_of a rest); done.
    + done.
Qed.

Lemma dotProducts_fold (a b : Z) (itemToUser : list (list (Z * double)))
    (items : list Z) (dotAB : gmap Z (gmap Z DotData.t)) :
  (a < b)%Z →
  Forall (λ listU, NoDup listU.*1) itemToUser →
  cell_at (fold_left (λ dotAB i, all_pairs dotAB (vec_get [] itemToUser i)) items dotAB) a b
  = fold_left (co_rating itemToUser a b) items (cell_at dotAB a b).
Proof.
  intros Hab Hnd. revert dotAB.
  induction items as [|i items IH]; intros dotAB; [done|].
  simpl. rewrite IH. f_equal. unfold co_rating.
  apply all_pairs_cell; [done|]. apply vec_get_Forall; [done | constructor].
Qed.


(** *** Who appears in the accumulator *)

Lemma add_product_cells (R : Z → Z → Prop) (dotAB : gmap Z (gmap Z DotData.t))
    (pa pb : Z * double) :
  cells_within R dotAB →
  ((pb.1 < pa.1)%Z → R pb.1 pa.1) → ((pa.1 ≤ pb.1)%Z → R pa.1 pb.1) →
  cells_within R (add_product dotAB pa pb).
Proof.
  intros Hd Hlt Hge a row b. unfold add_product.
  destruct (Z.ltb_spec pb.1 pa.1) as [Hcmp|Hcmp]; simpl.
  - destruct (decide (a = pb.1)) as [->|Hne].
    + rewrite lookup_insert_eq. intros [= <-].
      destruct (decide (b = pa.1)) as [->|Hne']; [by intros _; apply Hlt|].
      rewrite lookup_insert_ne by done. unfold at_key.
      destruct (dotAB !! pb.1) as [row|] eqn:E; simpl; [|by intros [? ?]].
      by apply (Hd pb.1 row b).
    + rewrite lookup_insert_ne by done. apply Hd.
  - destruct (decide (a = pa.1)) as [->|Hne].
    + rewrite lookup_insert_eq. intros [= <-].
      destruct (decide (b = pb.1)) as [->|Hne']; [by intros _; apply Hge|].
      rewrite lookup_insert_ne by done. unfold at_key.
      destruct (dotAB !! pa.1) as [row|] eqn:E; simpl; [|by intros [? ?]].
      by apply (Hd pa.1 row b).
    + rewrite lookup_insert_ne by done. apply Hd.
Qed.

Lemma add_product_fold_cells (R : Z → Z → Prop) (dotAB : gmap Z (gmap Z DotData.t))
    (pa : Z * double) (rest : list (Z * double)) :
  cells_within R dotAB →
  (∀ pb, pb ∈ rest →
         ((pb.1 < pa.1)%Z → R pb.1 pa.1) ∧ ((pa.1 ≤ pb.1)%Z → R pa.1 pb.1)) →
  cells_within R (fold_left (λ d pb, add_product d pa pb) rest dotAB).
Proof.
  revert dotAB. induction rest as [|pb rest IH]; intros dotAB Hd HR; [done|].
  simpl. apply IH.
  - destruct (HR pb) as [Hlt Hge]; [left|]. by apply add_product_cells.
  - intros pb' Hpb'. apply HR. by right.
Qed.

Lemma all_pairs_cells (R : Z → Z → Prop) (dotAB : gmap Z (gmap Z DotData.t))
    (listU : list (Z * double)) :
  cells_within R dotAB → list_within R listU → cells_within R (all_pairs dotAB listU).
Proof.
  revert dotAB. induction listU as [|pa rest IH]; intros dotAB Hd [Hnd HR]; [done|].
  rewrite fmap_cons in Hnd, HR. apply NoDup_cons in Hnd as [Hpa Hnd].
  simpl. apply IH; [|split; [done|]; intros a b Ha Hb; apply HR; by right].
  apply add_product_fold_cells; [done|]. intros pb Hpb.
  assert (pb.1 ∈ rest.*1) as Hin by by apply list_elem_of_fmap_2.
  split; intros Hcmp; apply HR; try (by left); try (by right); [done|].
  destruct (decide (pa.1 = pb.1)) as [E|E]; [|lia].
  destruct Hpa. by rewrite E.
Qed.

Lemma dotProducts_cells (R : Z → Z → Prop) (maxItem : Z)
    (itemToUser : list (list (Z * double))) :
  Forall (list_within R) itemToUser →
  cells_within R (dotProducts maxItem itemToUser).
Proof.
  intros HR. unfold dotProducts.
  assert (cells_within R ∅) as Hd by (intros a row b; by rewrite lookup_empty).
  revert Hd. generalize (∅ : gmap Z (gmap Z DotData.t)).
  induction (int_range 1 maxItem) as [|i items IH]; intros dotAB Hd; [done|].
  simpl. apply IH, all_pairs_cells; [done|].
  apply (vec_get_Forall (list_within R)); [done|].
  split; [constructor | by intros a b ?%elem_of_nil].
Qed.

(** C1 (as amended): for every item id in the range [1, maxItemId] and
    every unordered pair of users in that item's list, the similarity
    stage adds residualA * residualB to the cell keyed by
    (min(uA,uB), max(uA,uB)) and adds 1 to its co-rating count, and each
    user's magnitude is the sum of the squared residuals over the items of
    that range the user rated; item id 0 contributes to neither. *)
Theorem similarity_accumulates_items_from_1 (maxItem : Z)
    (itemToUser : list (list (Z * double))) :
  Forall (λ listU, NoDup listU.*1) itemToUser →
  accumulated_from 1 maxItem itemToUser
    (dotProducts maxItem itemToUser) (magnitudes maxItem itemToUser).
Proof.
  intros Hnd. split_and!.
  - intros uA uB Hlt. unfold dotProducts. by rewrite dotProducts_fold.
  - intros u. unfold magnitudes. by rewrite magnitudes_fold.
  - apply dotProducts_cells. eapply Forall_impl; [exact Hnd|].
    intros listU HlistU. by split.
Qed.


Section BiasFacts.
Context `{!Traversal}.

(** *** Traversals *)

Lemma traverse_empty {V : Type} : traverse (∅ : gmap Z V) = [].
Proof.
  apply Permutation_nil_r. rewrite traverse_perm, map_to_list_empty. done.
Qed.

Lemma traverse_elem {V : Type} (m : gmap Z V) (k : Z) (v : V) :
  (k, v) ∈ traverse m ↔ m !! k = Some v.
Proof. rewrite traverse_perm. apply elem_of_map_to_list. Qed.

Lemma traverse_NoDup_keys {V : Type} (m : gmap Z V) : NoDup (traverse m).*1.
Proof. rewrite traverse_perm. apply NoDup_fst_map_to_list. Qed.

(** *** Bias refinement *)

Lemma bias_pass_stored (mean : double) (ratings : gmap Z (gmap Z double))
    (b : gmap Z double * list double) :
  bias_pass mean ratings b
  = fold_left (λ b t, sgd_update mean t.1.1 t.1.2 t.2 b) (stored_ratings ratings) b.
Proof.
  unfold bias_pass, stored_ratings. rewrite fold_left_bind.
  apply fold_left_pointwise. intros b' uPair. rewrite fold_left_bind.
  apply fold_left_pointwise. intros b'' mPair. done.
Qed.

(** C4: the refinement is exactly 8 passes; each pass runs through the
    stored ratings in stored order, and the step for the rating r of
    (u, i) computes error = r - (globalMean + userBias[u] + itemBias[i])
    from the current biases, then sets userBias[u] to
    bu + 0.01 * (error - 0.02 * bu) and itemBias[i] to
    bi + 0.01 * (error - 0.02 * bi), with bu and bi the values before the
    step; nothing else changes, and the next step starts from the result,
    so later ratings of the same pass read the updated biases. *)
Theorem bias_refinement_in_place (mean : double) (ratings : gmap Z (gmap Z double))
    (u i : Z) (r : double) (userBias : gmap Z double) (itemBias : list double) :
  (0 ≤ i < Z.of_nat (length itemBias))%Z →
  let step := λ b (t : Z * Z * double), sgd_update mean t.1.1 t.1.2 t.2 b in
  let bu := at_key 0 u userBias in
  let bi := vec_get 0 itemBias i in
  let error := r - (mean + bu + bi) in
  let after := step (userBias, itemBias) (u, i, r) in
  refine_biases mean ratings (userBias, itemBias)
  = fold_left step (mjoin (replicate 8 (stored_ratings ratings))) (userBias, itemBias)
  ∧ (∀ t rest b, fold_left step (t :: rest) b = fold_left step rest (step b t))
  ∧ after.1 !! u = Some (bu + 0.01 * (error - 0.02 * bu))
  ∧ vec_get 0 after.2 i = bi + 0.01 * (error - 0.02 * bi)
  ∧ (∀ u', u' ≠ u → after.1 !! u' = userBias !! u')
  ∧ (∀ i', i' ≠ i → vec_get 0 after.2 i' = vec_get 0 itemBias i').
Proof.
  intros Hi step bu bi error after. split_and!.
  - unfold refine_biases.
    rewrite (iter_pointwise (bias_pass mean ratings)
               (fold_left step (stored_ratings ratings)));
      [apply iter_fold_left | intros b; apply bias_pass_stored].
  - done.
  - apply lookup_insert_eq.
  - unfold after, step, sgd_update. simpl. by rewrite vec_get_alter_eq.
  - intros u' Hu. unfold after, step, sgd_update. simpl. by rewrite lookup_insert_ne.
  - intros i' Hi'. unfold after, step, sgd_update. simpl. by rewrite vec_get_alter_ne.
Qed.

(** *** Who has a user bias *)

Lemma traverse_keys {V : Type} (m : gmap Z V) (k : Z) :
  k ∈ (traverse m).*1 ↔ k ∈ dom m.
Proof.
  rewrite elem_of_dom, list_elem_of_fmap. split.
  - intros [[k' v] [-> Hkv]]. apply traverse_elem in Hkv. by exists v.
  - intros [v Hv]. exists (k, v). split; [done|]. by apply traverse_elem.
Qed.

Lemma init_userBias_dom (ratings : gmap Z (gmap Z double)) :
  dom (init_userBias ratings) = dom ratings.
Proof.
  unfold init_userBias.
  assert (∀ (l : list (Z * gmap Z double)) (ub : gmap Z double),
            dom (fold_left (λ userBias uPair, <[uPair.1 := 0]> userBias) l ub)
            = dom ub ∪ list_to_set (l.*1)) as Hfold.
  { induction l as [|p l IH]; intros ub; simpl; [set_solver|].
    rewrite IH, dom_insert_L. set_solver. }
  rewrite Hfold, dom_empty_L. apply set_eq. intros u.
  rewrite <- traverse_keys. set_solver.
Qed.

Lemma stored_ratings_elem (ratings : gmap Z (gmap Z double)) (u i : Z) (r : double) :
  (u, i, r) ∈ stored_ratings ratings
  ↔ ∃ row, ratings !! u = Some row ∧ row !! i = Some r.
Proof.
  unfold stored_ratings. rewrite list_elem_of_bind. split.
  - intros [[u' row] [Hin Hu]]. apply list_elem_of_bind in Hin as [[i' r'] [Hin Hi]].
    apply list_elem_of_singleton in Hin. simpl in *. simplify_eq.
    exists row. split; by apply traverse_elem.
  - intros (row & Hu & Hi). exists (u, row). split; [|by apply traverse_elem].
    apply list_elem_of_bind. exists (i, r). split; [by left | by apply traverse_elem].
Qed.

Lemma sgd_fold_dom (mean : double) (l : list (Z * Z * double))
    (b : gmap Z double * list double) :
  dom (fold_left (λ b t, sgd_update mean t.1.1 t.1.2 t.2 b) l b).1
  = dom b.1 ∪ list_to_set (l.*1.*1).
Proof.
  revert b. induction l as [|[[u i] r] l IH]; intros [ub ib]; simpl; [set_solver|].
  rewrite IH. simpl. rewrite dom_insert_L. set_solver.
Qed.

Lemma bias_pass_dom (mean : double) (ratings : gmap Z (gmap Z double))
    (b : gmap Z double * list double) :
  dom ratings ⊆ dom b.1 → dom (bias_pass mean ratings b).1 = dom b.1.
Proof.
  intros Hsub. rewrite bias_pass_stored, sgd_fold_dom.
  apply set_eq. intros u. split; [|set_solver].
  intros [Hu | Hu]%elem_of_union; [done|]. apply Hsub.
  apply elem_of_list_to_set, list_elem_of_fmap in Hu as [[u' i] [-> Hu]].
  apply list_elem_of_fmap in Hu as [[[u'' i'] r] [[= -> ->] Hu]].
  apply stored_ratings_elem in Hu as (row & Hrow & _). by apply elem_of_dom.
Qed.

Lemma refine_biases_dom (mean : double) (ratings : gmap Z (gmap Z double))
    (itemBias : list double) :
  dom (refine_biases mean ratings (init_userBias ratings, itemBias)).1 = dom ratings.
Proof.
  unfold refine_biases.
  induction (Z.to_nat NUM_ITERS) as [|n IH]; simpl; [apply init_userBias_dom|].
  rewrite bias_pass_dom; [done | by rewrite IH].
Qed.

End BiasFacts.

(** *** Item -> (user, residual) *)

Section ProjectFacts.
Context `{!Traversal}.

Lemma NoDup_fmap_eq {A B : Type} (f : A → B) (l : list A) (x y : A) :
  NoDup (f <$> l) → x ∈ l → y ∈ l → f x = f y → x = y.
Proof.
  induction l as [|a l IH]; [by intros _ ?%elem_of_nil|].
  rewrite fmap_cons, NoDup_cons.
  intros [Ha Hnd] [->|Hx]%elem_of_cons [->|Hy]%elem_of_cons E; try done.
  - destruct Ha. rewrite E. by apply list_elem_of_fmap_2.
  - destruct Ha. rewrite <- E. by apply list_elem_of_fmap_2.
  - by apply IH.
Qed.

Lemma stored_ratings_NoDup (ratings : gmap Z (gmap Z double)) :
  NoDup (stored_ratings ratings).*1.
Proof.
  unfold stored_ratings.
  assert (∀ l : list (Z * gmap Z double),
            (l ≫= λ uPair, traverse uPair.2 ≫= λ mPair, [(uPair.1, mPair.1, mPair.2)]).*1
            = l ≫= λ uPair, (λ mPair : Z * double, (uPair.1, mPair.1)) <$> traverse uPair.2)
    as ->.
  { induction l as [|p l IH]; [done|].
    rewrite !bind_cons, fmap_app, IH. f_equal.
    induction (traverse p.2) as [|m ms IHm]; [done|].
    rewrite bind_cons, fmap_app, IHm. done. }
  apply NoDup_bind.
  - intros [u1 row1] [u2 row2] [u i] H1 H2 Hy1 Hy2. simpl in *.
    apply list_elem_of_fmap in Hy1 as [m1 [[= -> ->] _]].
    apply list_elem_of_fmap in Hy2 as [m2 [[= -> _] _]].
    apply traverse_elem in H1, H2. congruence.
  - intros [u row] _. simpl.
    apply NoDup_fmap_2_strong.
    + intros m1 m2 H1 H2 [= E]. destruct m1 as [i1 r1], m2 as [i2 r2]. simpl in E. subst.
      apply traverse_elem in H1, H2. congruence.
    + eapply NoDup_fmap_1, traverse_NoDup_keys.
  - eapply NoDup_fmap_1, traverse_NoDup_keys.
Qed.

Lemma project_stored (mean : double) (userBias : gmap Z double)
    (itemBias : list double) (ratings : gmap Z (gmap Z double)) (maxItem : Z) :
  project mean userBias itemBias ratings maxItem
  = fold_left (push_residual mean userBias itemBias) (stored_ratings ratings)
              (replicate (Z.to_nat (maxItem + 1)) []).
Proof.
  unfold project, stored_ratings. rewrite fold_left_bind.
  apply fold_left_pointwise. intros itu uPair. rewrite fold_left_bind.
  apply fold_left_pointwise. intros itu' mPair. done.
Qed.

Lemma push_residual_fold (mean : double) (userBias : gmap Z double)
    (itemBias : list double) (stored : list (Z * Z * double))
    (itemToUser : list (list (Z * double))) (n : nat) :
  fold_left (push_residual mean userBias itemBias) stored itemToUser !! n
  = (λ l, l ++ (residual_entry mean userBias itemBias <$> ratings_of_slot n stored))
      <$> (itemToUser !! n).
Proof.
  revert itemToUser. induction stored as [|[[u i] r] stored IH]; intros itemToUser.
  { simpl. destruct (itemToUser !! n); simpl; [|done]. by rewrite app_nil_r. }
  simpl. rewrite IH. unfold push_residual, vec_alter, ratings_of_slot. simpl.
  rewrite filter_cons. simpl.
  destruct (Z.leb_spec 0 i) as [Hi|Hi].
  - destruct (decide (Z.to_nat i = n)) as [<-|Hn].
    + rewrite list_lookup_alter_eq. rewrite decide_True by done.
      destruct (itemToUser !! Z.to_nat i); simpl; [|done].
      by rewrite <- app_assoc.
    + rewrite list_lookup_alter_ne by done. rewrite decide_False by naive_solver. done.
  - rewrite decide_False by lia. done.
Qed.

(** Slot [n] of the projection, when the vector has it, lists the entries
    of the stored ratings of that item, in stored order. *)
Lemma project_lookup (mean : double) (userBias : gmap Z double)
    (itemBias : list double) (ratings : gmap Z (gmap Z double)) (maxItem : Z)
    (n : nat) (listU : list (Z * double)) :
  project mean userBias itemBias ratings maxItem !! n = Some listU →
  listU = residual_entry mean userBias itemBias
            <$> ratings_of_slot n (stored_ratings ratings).
Proof.
  rewrite project_stored, push_residual_fold.
  destruct (replicate (Z.to_nat (maxItem + 1)) [] !! n) as [l0|] eqn:E; [|done].
  apply lookup_replicate in E as [-> _]. simpl. by intros [= <-].
Qed.

Lemma ratings_of_slot_elem (n : nat) (stored : list (Z * Z * double))
    (t : Z * Z * double) :
  t ∈ ratings_of_slot n stored ↔ ((0 ≤ t.1.2)%Z ∧ Z.to_nat t.1.2 = n) ∧ t ∈ stored.
Proof. unfold ratings_of_slot. by rewrite list_elem_of_filter. Qed.

Lemma project_users (mean : double) (userBias : gmap Z double)
    (itemBias : list double) (ratings : gmap Z (gmap Z double)) (maxItem : Z)
    (listU : list (Z * double)) :
  listU ∈ project mean userBias itemBias ratings maxItem →
  NoDup listU.*1 ∧ ∀ u, u ∈ listU.*1 → u ∈ dom ratings.
Proof.
  intros [n Hn]%list_elem_of_lookup. apply project_lookup in Hn as ->.
  rewrite <- list_fmap_compose. split.
  - apply NoDup_fmap_2_strong.
    + intros x y [[Gx Hx] Hxin]%ratings_of_slot_elem [[Gy Hy] Hyin]%ratings_of_slot_elem E.
      simpl in E. apply (NoDup_fmap_eq fst (stored_ratings ratings));
        [apply stored_ratings_NoDup | done | done |].
      destruct x as [[ux ix] rx], y as [[uy iy] ry]. simpl in *. f_equal; lia.
    + apply NoDup_filter. eapply NoDup_fmap_1, stored_ratings_NoDup.
  - intros u [[[u' i] r] [-> [_ Hin]%ratings_of_slot_elem]]%list_elem_of_fmap. simpl.
    apply stored_ratings_elem in Hin as (row & Hrow & _). by apply elem_of_dom.
Qed.

(** The list of item [i], for every item id from 0 on, holds exactly the
    users with a retained rating [r] for [i], each with the residual of
    [r] against the fitted baseline. *)
Lemma residuals_entries (lines : list (Z * Z * double)) (u i : Z) (res : double) :
  (0 ≤ i)%Z →
  let st := ingest lines in
  (u, res) ∈ vec_get [] (residuals st) i
  ↔ ∃ row r, ratingsByUsers st !! u = Some row ∧ row !! i = Some r
             ∧ res = r - (globalMean st + at_key 0 u (fit_biases st).1
                          + vec_get 0 (fit_biases st).2 i).
Proof.
  intros Hi st. rewrite (vec_get_nonneg [] (residuals st)) by done.
  destruct (residuals st !! Z.to_nat i) as [l|] eqn:E; simpl.
  - apply project_lookup in E as ->. rewrite list_elem_of_fmap. split.
    + intros ([[u' i'] r] & Heq & [[Hnn Hi'] Hin]%ratings_of_slot_elem).
      simpl in *. assert (i' = i) as -> by lia.
      unfold residual_entry in Heq. simpl in Heq. injection Heq as -> ->.
      apply stored_ratings_elem in Hin as (row & Hrow & Hr). by exists row, r.
    + intros (row & r & Hrow & Hr & ->). exists (u, i, r). split; [done|].
      apply ratings_of_slot_elem. split; [done|].
      apply stored_ratings_elem. by exists row.
  - split; [by intros ?%elem_of_nil|].
    intros (row & r & Hrow & Hr & _).
    pose proof (ingest_items lines u i row Hrow (mk_is_Some _ _ Hr)) as Hle.
    unfold residuals in E. rewrite project_stored, push_residual_fold in E.
    fold st in Hle. rewrite lookup_replicate_2 in E by lia. done.
Qed.

End ProjectFacts.


(** *** The bounded queue *)

Section QueueFacts.
Context `{!PriorityQueue}.

Lemma pq_size_push (s : Similarity.t) (q : pq) :
  pq_size (pq_push s q) = S (pq_size q).
Proof. by rewrite !pq_size_elements, pq_push_elements. Qed.

Lemma pq_top_nonempty (q : pq) :
  pq_size q ≠ 0%nat → ∃ x, pq_top q = Some x.
Proof.
  intros Hq. destruct (pq_top q) as [x|] eqn:E; [by exists x|].
  apply pq_top_None in E. rewrite pq_size_elements, E in Hq. done.
Qed.

Lemma pq_size_pop (q : pq) (x : Similarity.t) :
  pq_top q = Some x → pq_size q = S (pq_size (pq_pop q)).
Proof.
  intros Hx. rewrite !pq_size_elements, (pq_pop_elements q x Hx). done.
Qed.

Lemma offer_lookup (u : Z) (s : Similarity.t) (top : gmap Z pq) :
  offer u s top !! u = Some (push_bounded s (at_key pq_new u top)).
Proof. unfold offer. by rewrite lookup_insert_eq. Qed.

Lemma offer_lookup_ne (u u' : Z) (s : Similarity.t) (top : gmap Z pq) :
  u ≠ u' → offer u s top !! u' = top !! u'.
Proof. intros Hne. unfold offer. by rewrite lookup_insert_ne. Qed.

Lemma neighbours_offer (u : Z) (s : Similarity.t) (top : gmap Z pq) :
  neighbours u (offer u s top) = pq_elements (push_bounded s (at_key pq_new u top)).
Proof. unfold neighbours at 1, at_key at 1. by rewrite offer_lookup. Qed.

Lemma neighbours_offer_ne (u u' : Z) (s : Similarity.t) (top : gmap Z pq) :
  u ≠ u' → neighbours u' (offer u s top) = neighbours u' top.
Proof. intros Hne. unfold neighbours, at_key. by rewrite offer_lookup_ne. Qed.

(** Below the bound nothing is evicted. *)
Lemma push_bounded_room (s : Similarity.t) (q : pq) :
  (Z.of_nat (pq_size q) < K)%Z →
  pq_elements (push_bounded s q) ≡ₚ s :: pq_elements q.
Proof.
  intros Hq. unfold push_bounded. simpl. rewrite pq_size_push.
  destruct (Z.ltb_spec K (Z.of_nat (S (pq_size q)))); [lia|].
  apply pq_push_elements.
Qed.

(** At the bound the entry that [top] returns is evicted, and no entry of
    the queue, the new one included, exceeds it. *)
Lemma push_bounded_full (s : Similarity.t) (q : pq) :
  (K ≤ Z.of_nat (pq_size q))%Z →
  ∃ e, pq_top (pq_push s q) = Some e
       ∧ s :: pq_elements q ≡ₚ e :: pq_elements (push_bounded s q)
       ∧ ∀ y, y ∈ s :: pq_elements q → Similarity.lt e y = false.
Proof.
  intros Hq. unfold push_bounded. simpl. rewrite pq_size_push.
  destruct (Z.ltb_spec K (Z.of_nat (S (pq_size q)))); [|lia].
  destruct (pq_top_nonempty (pq_push s q)) as [e He].
  { by rewrite pq_size_push. }
  exists e. split_and!; [done | |].
  - rewrite <- (pq_pop_elements _ e He). symmetry. apply pq_push_elements.
  - intros y Hy. apply (pq_top_greatest _ e He). by rewrite pq_push_elements.
Qed.

Lemma push_bounded_sub (s : Similarity.t) (q : pq) (x : Similarity.t) :
  x ∈ pq_elements (push_bounded s q) → x = s ∨ x ∈ pq_elements q.
Proof.
  intros Hx. apply elem_of_cons.
  destruct (Z.lt_ge_cases (Z.of_nat (pq_size q)) K) as [Hlt|Hge].
  - by rewrite <- (push_bounded_room s q Hlt).
  - destruct (push_bounded_full s q Hge) as (e & _ & Hperm & _).
    rewrite Hperm. by right.
Qed.

Lemma push_bounded_size (s : Similarity.t) (q : pq) :
  (Z.of_nat (pq_size q) ≤ K)%Z → (Z.of_nat (pq_size (push_bounded s q)) ≤ K)%Z.
Proof.
  intros Hq. unfold push_bounded. simpl.
  destruct (Z.ltb_spec K (Z.of_nat (pq_size (pq_push s q)))) as [Hlt|Hge]; [|done].
  destruct (pq_top_nonempty (pq_push s q)) as [e He].
  { by rewrite pq_size_push. }
  pose proof (pq_size_pop _ e He) as Hpop. rewrite pq_size_push in Hpop. lia.
Qed.

End QueueFacts.


(** *** Neighbour selection *)

Section SelectionFacts.
Context `{!Traversal} `{!PriorityQueue}.
Variable pow : double → double → double.

Lemma selectNeighbors_candidates (dotAB : gmap Z (gmap Z DotData.t))
    (magnitudeMap : gmap Z double) :
  selectNeighbors pow dotAB magnitudeMap
  = fold_left register (candidates pow dotAB magnitudeMap) ∅.
Proof.
  unfold selectNeighbors, candidates. rewrite fold_left_bind.
  apply fold_left_pointwise. intros top mapA. rewrite fold_left_bind.
  apply fold_left_pointwise. intros top' mapB.
  destruct (finalSimilarity pow mapB.2 _ _); done.
Qed.

Lemma candidates_elem (dotAB : gmap Z (gmap Z DotData.t)) (magnitudeMap : gmap Z double)
    (uA uB : Z) (s : double) :
  (uA, uB, s) ∈ candidates pow dotAB magnitudeMap
  ↔ ∃ row cell, dotAB !! uA = Some row ∧ row !! uB = Some cell
      ∧ finalSimilarity pow cell (at_key 0 uA magnitudeMap) (at_key 0 uB magnitudeMap)
        = Some s.
Proof.
  unfold candidates. rewrite list_elem_of_bind. split.
  - intros [[a row] [Hin Ha]]. apply list_elem_of_bind in Hin as [[b cell] [Hin Hb]].
    simpl in *. apply traverse_elem in Ha, Hb.
    destruct (finalSimilarity pow cell _ _) as [s'|] eqn:E; [|by apply elem_of_nil in Hin].
    apply list_elem_of_singleton in Hin. simplify_eq. by exists row, cell.
  - intros (row & cell & Ha & Hb & Hs). exists (uA, row).
    split; [|by apply traverse_elem].
    apply list_elem_of_bind. exists (uB, cell). split; [|by apply traverse_elem].
    simpl. rewrite Hs. left.
Qed.

Lemma offered_cons (u : Z) (c : Z * Z * double) (cs : list (Z * Z * double)) :
  offered u (c :: cs)
  = (if decide (c.1.1 = u)
     then [{| Similarity.userB := c.1.2; Similarity.value := c.2 |}] else [])
    ++ (if decide (c.1.2 = u)
        then [{| Similarity.userB := c.1.1; Similarity.value := c.2 |}] else [])
    ++ offered u cs.
Proof. unfold offered. by rewrite bind_cons, <- app_assoc. Qed.

Lemma neighbours_size (u : Z) (top : gmap Z pq) :
  length (neighbours u top) = pq_size (at_key pq_new u top).
Proof. unfold neighbours. by rewrite pq_size_elements. Qed.

Lemma offer_room (u u' : Z) (s : Similarity.t) (top : gmap Z pq) :
  (u = u' → Z.of_nat (length (neighbours u' top)) < K)%Z →
  neighbours u' (offer u s top)
  ≡ₚ (if decide (u = u') then [s] else []) ++ neighbours u' top.
Proof.
  intros Hroom. case_decide as E.
  - subst u'. rewrite neighbours_offer. apply push_bounded_room.
    rewrite <- neighbours_size. by apply Hroom.
  - by rewrite neighbours_offer_ne.
Qed.

Lemma offer_sub (u u' : Z) (s x : Similarity.t) (top : gmap Z pq) :
  x ∈ neighbours u' (offer u s top) → (u = u' ∧ x = s) ∨ x ∈ neighbours u' top.
Proof.
  destruct (decide (u = u')) as [<-|E].
  - rewrite neighbours_offer. intros [->|Hx]%push_bounded_sub; [by left | by right].
  - rewrite neighbours_offer_ne by done. by right.
Qed.

Lemma offer_bound (u u' : Z) (s : Similarity.t) (top : gmap Z pq) :
  (Z.of_nat (length (neighbours u' top)) ≤ K)%Z →
  (Z.of_nat (length (neighbours u' (offer u s top))) ≤ K)%Z.
Proof.
  destruct (decide (u = u')) as [<-|E].
  - rewrite neighbours_offer, neighbours_size, <- !pq_size_elements.
    apply push_bounded_size.
  - by rewrite neighbours_offer_ne.
Qed.

Lemma register_room (u : Z) (cs : list (Z * Z * double)) (top : gmap Z pq) :
  (Z.of_nat (length (neighbours u top) + length (offered u cs)) ≤ K)%Z →
  neighbours u (fold_left register cs top) ≡ₚ offered u cs ++ neighbours u top.
Proof.
  revert top. induction cs as [|[[uA uB] s] cs IH]; intros top Hroom; [done|].
  rewrite offered_cons in *. simpl in *. rewrite !length_app in Hroom.
  set (sA := {| Similarity.userB := uB; Similarity.value := s |}) in *.
  set (sB := {| Similarity.userB := uA; Similarity.value := s |}) in *.
  assert (neighbours u (offer uA sA top)
          ≡ₚ (if decide (uA = u) then [sA] else []) ++ neighbours u top) as H1.
  { apply offer_room. intros ->. rewrite decide_True in Hroom by done.
    simpl in Hroom. lia. }
  assert (neighbours u (offer uB sB (offer uA sA top))
          ≡ₚ (if decide (uB = u) then [sB] else [])
             ++ (if decide (uA = u) then [sA] else []) ++ neighbours u top) as H2.
  { rewrite <- H1. apply offer_room. intros ->. rewrite H1, length_app.
    rewrite (decide_True (P := u = u)) in Hroom by done. simpl in Hroom.
    destruct (decide (uA = u)); simpl in *; lia. }
  rewrite IH.
  - rewrite H2. destruct (decide (uA = u)), (decide (uB = u)); simpl;
      rewrite <- ?Permutation_middle; try done. apply perm_swap.
  - rewrite H2, !length_app. destruct (decide (uA = u)), (decide (uB = u));
      simpl in *; lia.
Qed.

Lemma register_sub (u : Z) (x : Similarity.t) (cs : list (Z * Z * double))
    (top : gmap Z pq) :
  x ∈ neighbours u (fold_left register cs top) →
  x ∈ offered u cs ∨ x ∈ neighbours u top.
Proof.
  revert top. induction cs as [|[[uA uB] s] cs IH]; intros top Hx; [by right|].
  rewrite offered_cons. simpl in *. rewrite !elem_of_app.
  apply IH in Hx as [Hx|Hx]; [by left; right; right|].
  apply offer_sub in Hx as [[-> ->]|Hx].
  { left. right. left. rewrite decide_True by done. left. }
  apply offer_sub in Hx as [[-> ->]|Hx]; [|by right].
  left. left. rewrite decide_True by done. left.
Qed.

Lemma register_bound (u : Z) (cs : list (Z * Z * double)) (top : gmap Z pq) :
  (Z.of_nat (length (neighbours u top)) ≤ K)%Z →
  (Z.of_nat (length (neighbours u (fold_left register cs top))) ≤ K)%Z.
Proof.
  revert top. induction cs as [|[[uA uB] s] cs IH]; intros top Hb; [done|].
  simpl. apply IH. by do 2 apply offer_bound.
Qed.

Lemma register_keys (u : Z) (cs : list (Z * Z * double)) (top : gmap Z pq) :
  is_Some (fold_left register cs top !! u) →
  is_Some (top !! u) ∨ ∃ c, c ∈ cs ∧ (c.1.1 = u ∨ c.1.2 = u).
Proof.
  revert top. induction cs as [|[[uA uB] s] cs IH]; intros top Hu; [by left|].
  simpl in Hu. apply IH in Hu as [Hu | (c & Hc & Hcu)].
  - destruct (decide (uB = u)) as [->|HB].
    { right. eexists. split; [left | by right]. }
    rewrite offer_lookup_ne in Hu by done.
    destruct (decide (uA = u)) as [->|HA].
    { right. eexists. split; [left | by left]. }
    rewrite offer_lookup_ne in Hu by done. by left.
  - right. exists c. split; [by right | done].
Qed.

(** No queue ever holds more than [K] entries once a registration block
    has finished. *)
Lemma selectNeighbors_bound (dotAB : gmap Z (gmap Z DotData.t))
    (magnitudeMap : gmap Z double) (u : Z) :
  (Z.of_nat (length (neighbours u (selectNeighbors pow dotAB magnitudeMap))) ≤ K)%Z.
Proof.
  rewrite selectNeighbors_candidates. apply register_bound.
  unfold neighbours, at_key. rewrite lookup_empty. simpl.
  rewrite pq_new_elements. done.
Qed.

(** C6 (what the code does): when a user's queue already holds K = 190
    entries, offering one more keeps the size at K by evicting an entry
    that no entry of the queue, the new one included, exceeds in
    similarity: the eviction removes a largest-similarity entry, not the
    smallest. *)
Theorem eviction_removes_greatest (u : Z) (s : Similarity.t) (top : gmap Z pq) :
  Z.of_nat (length (neighbours u top)) = K →
  ∃ e : Similarity.t,
    s :: neighbours u top ≡ₚ e :: neighbours u (offer u s top)
    ∧ (∀ y, y ∈ s :: neighbours u top → Similarity.lt e y = false)
    ∧ Z.of_nat (length (neighbours u (offer u s top))) = K.
Proof.
  intros Hfull. rewrite neighbours_size in Hfull.
  destruct (push_bounded_full s (at_key pq_new u top)) as (e & _ & Hperm & Hmax);
    [lia|].
  exists e. rewrite neighbours_offer. split_and!; [done | done |].
  apply Permutation_length in Hperm. simpl in Hperm.
  rewrite <- pq_size_elements in Hperm. lia.
Qed.


Lemma finalSimilarity_positive (cell : DotData.t) (magA magB s : double) :
  finalSimilarity pow cell magA magB = Some s → Double.gtb s 0 = true.
Proof.
  unfold finalSimilarity.
  destruct (cosineSimilarity _ _ _ <=? 0)%float; [done|].
  match goal with |- context [Double.gtb ?x 0] => destruct (Double.gtb x 0) eqn:E end;
    [|done].
  by intros [= <-].
Qed.

(** C7: for every accumulated pair (uA, uB) whose finalSimilarity is
    strictly positive, the registration pushes (uB, finalSimilarity) for
    uA and (uA, finalSimilarity) for uB, the same value in both.  The
    queues never hold an entry that was not pushed, and a user who is
    pushed at most K entries keeps them all, so below the truncation each
    of the two users ends up among the other's neighbours with that
    value. *)
Theorem registration_symmetric (dotAB : gmap Z (gmap Z DotData.t))
    (magnitudeMap : gmap Z double) (uA uB : Z) (row : gmap Z DotData.t)
    (cell : DotData.t) (s : double) :
  dotAB !! uA = Some row → row !! uB = Some cell →
  finalSimilarity pow cell (at_key 0 uA magnitudeMap) (at_key 0 uB magnitudeMap)
  = Some s →
  let cs := candidates pow dotAB magnitudeMap in
  let top := selectNeighbors pow dotAB magnitudeMap in
  Double.gtb s 0 = true
  ∧ Similarity.mk uB s ∈ offered uA cs
  ∧ Similarity.mk uA s ∈ offered uB cs
  ∧ (∀ u x, x ∈ neighbours u top → x ∈ offered u cs)
  ∧ ((Z.of_nat (length (offered uA cs)) ≤ K)%Z → Similarity.mk uB s ∈ neighbours uA top)
  ∧ ((Z.of_nat (length (offered uB cs)) ≤ K)%Z → Similarity.mk uA s ∈ neighbours uB top).
Proof.
  intros Hrow Hcell Hs cs top.
  assert ((uA, uB, s) ∈ cs) as Hin by (apply candidates_elem; by exists row, cell).
  assert (∀ u, neighbours u (∅ : gmap Z pq) = []) as Hnil.
  { intros u. unfold neighbours, at_key. rewrite lookup_empty. apply pq_new_elements. }
  assert (Similarity.mk uB s ∈ offered uA cs) as HA.
  { unfold offered. apply list_elem_of_bind. exists (uA, uB, s). split; [|done].
    simpl. rewrite decide_True by done. left. }
  assert (Similarity.mk uA s ∈ offered uB cs) as HB.
  { unfold offered. apply list_elem_of_bind. exists (uA, uB, s). split; [|done].
    simpl. rewrite (decide_True (P := uB = uB)) by done.
    apply elem_of_app. right. left. }
  split_and!; try done.
  - by eapply finalSimilarity_positive.
  - intros u x Hx. unfold top in Hx. rewrite selectNeighbors_candidates in Hx.
    apply register_sub in Hx as [Hx|Hx]; [done|]. rewrite Hnil in Hx.
    by apply elem_of_nil in Hx.
  - intros Hroom. unfold top. rewrite selectNeighbors_candidates.
    rewrite register_room; [|rewrite Hnil; simpl; fold cs; lia].
    apply elem_of_app. by left.
  - intros Hroom. unfold top. rewrite selectNeighbors_candidates.
    rewrite register_room; [|rewrite Hnil; simpl; fold cs; lia].
    apply elem_of_app. by left.
Qed.


End SelectionFacts.


Section Properties.
Context `{!Traversal} `{!PriorityQueue}.
Variable pow : double → double → double.

(** *** The empty training set *)

Lemma train_nil :
  train pow [] = {| m_ratings := ∅; m_mean := 3.5; m_maxItem := 0;
                    m_userBias := ∅; m_itemBias := [0]; m_top := ∅ |}.
Proof.
  unfold train, residuals, fit_biases, refine_biases, bias_pass, init_userBias,
    project, selectNeighbors, dotProducts, magnitudes.
  simpl. rewrite !traverse_empty. done.
Qed.

Lemma predict_untrained (userId itemId : Z) :
  predict (train pow []) userId itemId = (3.5, train pow []).
Proof.
  rewrite train_nil. unfold predict, neighbour_votes, query_baseline. simpl.
  rewrite !lookup_empty.
  replace ((1 <=? itemId)%Z && (itemId <=? 0)%Z) with false
    by (symmetry; apply andb_false_iff; lia).
  done.
Qed.

Lemma run_queries_untrained (queries : list (Z * Z)) (out : list double) :
  fold_left answer queries (out, train pow [])
  = (out ++ replicate (length queries) 3.5, train pow []).
Proof.
  revert out. induction queries as [|q queries IH]; intros out; simpl.
  { by rewrite app_nil_r. }
  unfold answer at 2. simpl. rewrite predict_untrained, IH.
  by rewrite <- app_assoc.
Qed.

(** C8: with zero training records globalMean is exactly 3.5, no user has
    a bias and the only item bias slot holds 0, no user has a neighbour
    set, and every prediction written for a query stream is exactly 3.5. *)
Theorem empty_training_default (queries : list (Z * Z)) :
  m_mean (train pow []) = 3.5
  ∧ m_userBias (train pow []) = ∅
  ∧ Forall (λ b, b = 0) (m_itemBias (train pow []))
  ∧ m_top (train pow []) = ∅
  ∧ main pow [] queries = replicate (length queries) 3.5.
Proof.
  unfold main, run_queries. rewrite run_queries_untrained, train_nil. simpl.
  repeat split; try done. by apply Forall_singleton.
Qed.

(** *** The neighbour loop of a query *)

Lemma drain_pops {A : Type} (fuel : nat) (q : pq) (body : A → Similarity.t → A)
    (acc : A) :
  drain fuel q body acc = fold_left body (pops fuel q) acc.
Proof.
  revert q acc. induction fuel as [|fuel IH]; intros q acc; [done|].
  simpl. destruct (pq_size q =? 0)%nat; [done|].
  destruct (pq_top q); [apply IH | done].
Qed.

(** With the queue's size as fuel the loop runs until the copy is empty:
    it pops every entry exactly once. *)
Lemma pops_all (q : pq) : pops (pq_size q) q ≡ₚ pq_elements q.
Proof.
  remember (pq_size q) as n eqn:Hn. revert q Hn.
  induction n as [|n IH]; intros q Hn; simpl.
  { rewrite pq_size_elements in Hn. symmetry in Hn.
    apply length_zero_iff_nil in Hn. by rewrite Hn. }
  rewrite <- Hn. simpl.
  destruct (pq_top_nonempty q) as [x Hx]; [lia|]. rewrite Hx.
  rewrite (pq_pop_elements q x Hx). apply perm_skip, IH.
  pose proof (pq_size_pop q x Hx). lia.
Qed.

Lemma vote_frame (mean : double) (maxItem : Z) (itemBias : list double) (itemId : Z)
    (ratings : gmap Z (gmap Z double)) (userBias : gmap Z double)
    (l : list Similarity.t) (weightedSum sumOfWeights : double) :
  Forall (λ x, Similarity.userB x ∈ dom ratings ∧ Similarity.userB x ∈ dom userBias) l →
  ∃ weightedSum' sumOfWeights',
    fold_left (vote mean maxItem itemBias itemId) l
              (weightedSum, sumOfWeights, ratings, userBias)
    = (weightedSum', sumOfWeights', ratings, userBias).
Proof.
  revert weightedSum sumOfWeights.
  induction l as [|x l IH]; intros weightedSum sumOfWeights Hl; [by eexists _, _|].
  apply Forall_cons in Hl as [[Hr Hb] Hl]. simpl.
  apply elem_of_dom in Hr as [row Hrow]. apply elem_of_dom in Hb as [bn Hbn].
  unfold subscript. rewrite Hrow.
  destruct (row !! itemId); [rewrite Hbn|]; by apply IH.
Qed.

(** *** The users of a trained model *)

Lemma residuals_NoDup (st : Ingest) :
  Forall (λ listU : list (Z * double), NoDup listU.*1) (residuals st).
Proof.
  apply Forall_forall. intros listU Hin.
  unfold residuals in Hin. by apply project_users in Hin as [Hnd _].
Qed.

Lemma residuals_users (st : Ingest) :
  Forall (list_within (λ a b, a ∈ dom (ratingsByUsers st) ∧ b ∈ dom (ratingsByUsers st)))
         (residuals st).
Proof.
  apply Forall_forall. intros listU Hin.
  unfold residuals in Hin. apply project_users in Hin as [Hnd Hdom].
  split; [done|]. intros a b Ha Hb _. split; by apply Hdom.
Qed.

Lemma train_candidates_users (lines : list (Z * Z * double)) (uA uB : Z) (s : double) :
  let st := ingest lines in
  (uA, uB, s) ∈ candidates pow (dotProducts (maxItemId st) (residuals st))
                           (magnitudes (maxItemId st) (residuals st)) →
  uA ∈ lines.*1.*1 ∧ uB ∈ lines.*1.*1.
Proof.
  intros st (row & cell & Hrow & Hcell & _)%candidates_elem.
  rewrite <- !ingest_users.
  apply (dotProducts_cells
           (λ a b, a ∈ dom (ratingsByUsers st) ∧ b ∈ dom (ratingsByUsers st))
           (maxItemId st) (residuals st) (residuals_users st) uA row uB Hrow).
  by exists cell.
Qed.

Lemma train_top_users (lines : list (Z * Z * double)) (u : Z) :
  is_Some (m_top (train pow lines) !! u) → u ∈ lines.*1.*1.
Proof.
  unfold train. simpl. rewrite selectNeighbors_candidates.
  intros [Hu | ([[uA uB] s] & Hc & Hu)]%register_keys.
  { rewrite lookup_empty in Hu. by destruct Hu. }
  apply train_candidates_users in Hc as [HA HB]. simpl in Hu. by destruct Hu as [<-|<-].
Qed.

Lemma train_neighbour_users (lines : list (Z * Z * double)) (u : Z) (x : Similarity.t) :
  x ∈ neighbours u (m_top (train pow lines)) → Similarity.userB x ∈ lines.*1.*1.
Proof.
  unfold train. simpl. rewrite selectNeighbors_candidates.
  intros [Hx|Hx]%register_sub.
  - unfold offered in Hx. apply list_elem_of_bind in Hx as [[[uA uB] s] [Hx Hc]].
    apply train_candidates_users in Hc as [HA HB]. simpl in Hx.
    apply elem_of_app in Hx as [Hx|Hx]; case_decide; try (by apply elem_of_nil in Hx);
      apply list_elem_of_singleton in Hx; by subst x.
  - unfold neighbours, at_key in Hx. rewrite lookup_empty in Hx. simpl in Hx.
    rewrite pq_new_elements in Hx. by apply elem_of_nil in Hx.
Qed.


(** *** The baseline of a query *)

Lemma train_userBias_dom (lines : list (Z * Z * double)) (u : Z) :
  u ∈ dom (m_userBias (train pow lines)) ↔ u ∈ lines.*1.*1.
Proof.
  unfold train, fit_biases. simpl. rewrite refine_biases_dom. apply ingest_users.
Qed.

(** C2 (as amended): for every query (userId, itemId) the baseline is
    globalMean, plus userBias[userId] when the user occurs in the training
    stream (nothing is added for an unseen user), plus itemBias[itemId]
    when 1 <= itemId <= maxItemId (nothing is added otherwise, item id 0
    included). *)
Theorem baseline_item_range (lines : list (Z * Z * double)) (userId itemId : Z) :
  query_baseline (train pow lines) userId itemId
  = baseline_with_items_from 1 (lines.*1.*1) (train pow lines) userId itemId.
Proof.
  unfold query_baseline, baseline_with_items_from, at_key.
  pose proof (train_userBias_dom lines userId) as Hdom.
  rewrite elem_of_dom in Hdom.
  destruct (m_userBias (train pow lines) !! userId) as [bu|] eqn:E.
  - rewrite bool_decide_eq_true_2; [done | by apply Hdom].
  - rewrite bool_decide_eq_false_2; [done|]. intros Hin.
    apply Hdom in Hin as [? ?]. done.
Qed.

(** *** Queries *)

Lemma predict_frame (m : Model) (userId itemId : Z) :
  (∀ x, x ∈ neighbours userId (m_top m) →
        Similarity.userB x ∈ dom (m_ratings m)
        ∧ Similarity.userB x ∈ dom (m_userBias m)) →
  (predict m userId itemId).2 = m.
Proof.
  intros Hknown. unfold predict, neighbour_votes.
  destruct (m_top m !! userId) as [q|] eqn:Hq; [|by destruct m].
  rewrite drain_pops.
  destruct (vote_frame (m_mean m) (m_maxItem m) (m_itemBias m) itemId
              (m_ratings m) (m_userBias m) (pops (pq_size q) q) 0 0)
    as (ws & sw & ->); [|by destruct m].
  apply Forall_forall. intros x Hx. apply Hknown.
  unfold neighbours, at_key. rewrite Hq. simpl. by rewrite <- pops_all.
Qed.

Lemma train_predict_frame (lines : list (Z * Z * double)) (userId itemId : Z) :
  (predict (train pow lines) userId itemId).2 = train pow lines.
Proof.
  apply predict_frame. intros x Hx%train_neighbour_users. split.
  - unfold train. simpl. by apply ingest_users.
  - by apply train_userBias_dom.
Qed.

(** C9: a query whose user id occurs nowhere in the training stream is
    answered without error: the user has no bias entry and no neighbour
    queue, the neighbour loop leaves both sums at 0 and the model as it
    was, and the prediction is globalMean plus the item bias term alone
    (itemBias[itemId] when 1 <= itemId <= maxItemId, nothing otherwise). *)
Theorem unseen_user_prediction (lines : list (Z * Z * double)) (userId itemId : Z) :
  userId ∉ lines.*1.*1 →
  let m := train pow lines in
  m_userBias m !! userId = None
  ∧ m_top m !! userId = None
  ∧ neighbour_votes m userId itemId = (0, 0, m_ratings m, m_userBias m)
  ∧ predict m userId itemId
    = (if (1 <=? itemId)%Z && (itemId <=? m_maxItem m)%Z
       then m_mean m + vec_get 0 (m_itemBias m) itemId else m_mean m, m).
Proof.
  intros Hunseen m.
  assert (m_userBias m !! userId = None) as Hub.
  { apply eq_None_not_Some. intros Hsome%elem_of_dom.
    by apply train_userBias_dom in Hsome. }
  assert (m_top m !! userId = None) as Htop.
  { apply eq_None_not_Some. by intros Hsome%train_top_users. }
  assert (neighbour_votes m userId itemId = (0, 0, m_ratings m, m_userBias m)) as Hv.
  { unfold neighbour_votes. by rewrite Htop. }
  split_and!; try done.
  unfold predict, query_baseline. rewrite Hv, Hub.
  replace (Double.gtb 0 0) with false by done. by destruct m.
Qed.

Lemma run_queries_frame (m : Model) (queries : list (Z * Z)) (out : list double) :
  (∀ userId itemId, (predict m userId itemId).2 = m) →
  fold_left answer queries (out, m)
  = (out ++ ((λ q, (predict m q.1 q.2).1) <$> queries), m).
Proof.
  intros Hframe. revert out.
  induction queries as [|q queries IH]; intros out; simpl.
  { by rewrite app_nil_r. }
  unfold answer at 2. simpl.
  destruct (predict m q.1 q.2) as [p m'] eqn:E.
  pose proof (Hframe q.1 q.2) as Hm. rewrite E in Hm. simpl in Hm. subst m'.
  rewrite IH, <- app_assoc. done.
Qed.

(** C10: a query leaves the model as it found it: globalMean, the biases,
    the retained ratings and every neighbour queue are the same after the
    query as before.  Hence the prediction for a query of a stream is the
    prediction for that query on the freshly trained model, whatever
    queries come before or after it. *)
Theorem queries_leave_model_unchanged (lines : list (Z * Z * double))
    (queries : list (Z * Z)) :
  let m := train pow lines in
  (∀ userId itemId, (predict m userId itemId).2 = m)
  ∧ run_queries m queries = ((λ q, (predict m q.1 q.2).1) <$> queries, m)
  ∧ main pow lines queries = (λ q, (predict m q.1 q.2).1) <$> queries.
Proof.
  intros m.
  assert (∀ userId itemId, (predict m userId itemId).2 = m) as Hframe
    by apply train_predict_frame.
  assert (run_queries m queries = ((λ q, (predict m q.1 q.2).1) <$> queries, m)) as Hrun.
  { unfold run_queries. by rewrite run_queries_frame. }
  split_and!; [done | done |]. unfold main. fold m. by rewrite Hrun.
Qed.


End Properties.

(** ** Further properties of the program *)

(** *** The rating store *)

Lemma ingest_snoc (lines : list (Z * Z * double)) (t : Z * Z * double) :
  ingest (lines ++ [t]) = ingest_line (ingest lines) t.
Proof. unfold ingest. by rewrite fold_left_app. Qed.

Lemma ingest_line_lookup (st : Ingest) (t : Z * Z * double) (u i : Z) :
  ratingsByUsers (ingest_line st t) !! u ≫= (.!! i)
  = if decide (t.1 = (u, i)) then Some t.2 else ratingsByUsers st !! u ≫= (.!! i).
Proof.
  destruct t as [[u' i'] r]. simpl. unfold at_key.
  destruct (decide (u' = u)) as [->|Hu].
  - rewrite lookup_insert_eq. simpl.
    destruct (decide (i' = i)) as [->|Hi].
    + rewrite lookup_insert_eq. by rewrite decide_True.
    + rewrite lookup_insert_ne by done. rewrite decide_False by congruence.
      by destruct (ratingsByUsers st !! u).
  - rewrite lookup_insert_ne by done. rewrite decide_False by congruence. done.
Qed.

(** The store answers with the rating of the last training record for the
    pair (u, i), and with nothing when the stream has no record for it:
    a later record for a pair replaces the earlier one, and records for
    other pairs leave it alone. *)
Theorem store_keeps_last_rating (lines : list (Z * Z * double)) (u i : Z) :
  ratingsByUsers (ingest lines) !! u ≫= (.!! i)
  = snd <$> last (filter (λ t : Z * Z * double, t.1 = (u, i)) lines).
Proof.
  induction lines as [|t lines IH] using rev_ind; [done|].
  rewrite ingest_snoc, ingest_line_lookup, filter_app, filter_cons, filter_nil.
  case_decide as E.
  - by rewrite last_snoc.
  - by rewrite app_nil_r.
Qed.

(** *** The observed maxima *)

Lemma ingest_line_max (lines : list (Z * Z * double)) (st : Ingest) :
  let st' := fold_left ingest_line lines st in
  ((maxUserId st ≤ maxUserId st')%Z ∧ (maxItemId st ≤ maxItemId st')%Z)
  ∧ (∀ t, t ∈ lines → (t.1.1 ≤ maxUserId st')%Z ∧ (t.1.2 ≤ maxItemId st')%Z)
  ∧ (maxUserId st' = maxUserId st ∨ maxUserId st' ∈ lines.*1.*1)
  ∧ (maxItemId st' = maxItemId st ∨ maxItemId st' ∈ lines.*1.*2).
Proof.
  revert st. induction lines as [|[[u i] r] lines IH]; intros st; simpl.
  { split_and!; try lia; try by left. by intros t ?%elem_of_nil. }
  destruct (IH (ingest_line st (u, i, r))) as ((Hu & Hi) & Hall & HmaxU & HmaxI).
  simpl in *.
  set (st' := fold_left ingest_line lines _) in *.
  assert (maxUserId st ≤ maxUserId st' ∧ u ≤ maxUserId st')%Z as [? ?]
    by (destruct (Z.ltb_spec (maxUserId st) u); lia).
  assert (maxItemId st ≤ maxItemId st' ∧ i ≤ maxItemId st')%Z as [? ?]
    by (destruct (Z.ltb_spec (maxItemId st) i); lia).
  split_and!; try done.
  - intros t [->|Ht]%elem_of_cons; [done | by apply Hall].
  - destruct HmaxU as [->|Hin]; [|by right; right].
    destruct (Z.ltb_spec (maxUserId st) u); [right; left | by left].
  - destruct HmaxI as [->|Hin]; [|by right; right].
    destruct (Z.ltb_spec (maxItemId st) i); [right; left | by left].
Qed.

(** maxUserId and maxItemId are the largest user id and the largest item
    id of the training stream, and 0 when the stream has no positive id:
    they are never negative, no record exceeds them, and each is 0 or an
    id that occurs. *)
Theorem maxima_of_stream (lines : list (Z * Z * double)) :
  let st := ingest lines in
  (0 ≤ maxUserId st)%Z ∧ (0 ≤ maxItemId st)%Z
  ∧ (∀ t, t ∈ lines → (t.1.1 ≤ maxUserId st)%Z ∧ (t.1.2 ≤ maxItemId st)%Z)
  ∧ (maxUserId st = 0%Z ∨ maxUserId st ∈ lines.*1.*1)
  ∧ (maxItemId st = 0%Z ∨ maxItemId st ∈ lines.*1.*2).
Proof.
  intros st. destruct (ingest_line_max lines ingest_start) as ((Hu & Hi) & Hall & HU & HI).
  split_and!; done.
Qed.


(** *** The bias vectors *)

Section BiasShape.
Context `{!Traversal}.

Lemma sgd_fold_items (mean : double) (l : list (Z * Z * double))
    (userBias : gmap Z double) (itemBias : list double) :
  let b' := fold_left (λ b t, sgd_update mean t.1.1 t.1.2 t.2 b) l (userBias, itemBias) in
  length b'.2 = length itemBias
  ∧ ∀ i, i ∉ l.*1.*2 → vec_get 0 b'.2 i = vec_get 0 itemBias i.
Proof.
  revert userBias itemBias.
  induction l as [|[[u i] r] l IH]; intros ub ib; simpl; [done|].
  destruct (IH (<[u := at_key 0 u ub
                      + ALPHA * (r - (mean + at_key 0 u ub + vec_get 0 ib i)
                                 - REG * at_key 0 u ub)]> ub)
               (vec_alter (λ cur, cur + ALPHA * (r - (mean + at_key 0 u ub + vec_get 0 ib i)
                                                 - REG * vec_get 0 ib i)) ib i))
    as [Hlen Hget].
  split.
  - rewrite Hlen. unfold vec_alter. destruct (0 <=? i)%Z; [apply length_alter | done].
  - intros i' [Hne Hi']%not_elem_of_cons. rewrite Hget by done.
    by apply vec_get_alter_ne.
Qed.

Lemma refine_biases_stored (mean : double) (ratings : gmap Z (gmap Z double))
    (b : gmap Z double * list double) :
  refine_biases mean ratings b
  = fold_left (λ b t, sgd_update mean t.1.1 t.1.2 t.2 b)
      (mjoin (replicate (Z.to_nat NUM_ITERS) (stored_ratings ratings))) b.
Proof.
  unfold refine_biases. rewrite <- iter_fold_left.
  apply iter_pointwise. intros b'. apply bias_pass_stored.
Qed.

Lemma stored_rating_in_stream (lines : list (Z * Z * double)) (u i : Z) (r : double) :
  (u, i, r) ∈ stored_ratings (ratingsByUsers (ingest lines)) → (u, i, r) ∈ lines.
Proof.
  intros (row & Hrow & Hr)%stored_ratings_elem.
  assert (ratingsByUsers (ingest lines) !! u ≫= (.!! i) = Some r) as Hlook
    by (by rewrite Hrow).
  clear row Hrow Hr. revert Hlook.
  induction lines as [|t lines IH] using rev_ind; [done|].
  rewrite ingest_snoc, ingest_line_lookup. case_decide as E.
  - intros [= <-]. destruct t as [[u' i'] r']. simpl in E. injection E as -> ->.
    apply elem_of_app. right. left.
  - intros Hlook. apply elem_of_app. left. by apply IH.
Qed.

(** The item bias vector has one slot for each item id from 0 to
    maxItemId before and after the refinement, and the slot of an item id
    that no training record carries still holds 0.0 after it. *)
Theorem item_bias_vector_shape (lines : list (Z * Z * double)) (i : Z) :
  let st := ingest lines in
  length (init_itemBias (maxItemId st)) = Z.to_nat (maxItemId st + 1)
  ∧ length (fit_biases st).2 = Z.to_nat (maxItemId st + 1)
  ∧ (i ∉ lines.*1.*2 → vec_get 0 (fit_biases st).2 i = 0).
Proof.
  intros st. split; [apply length_replicate|].
  unfold fit_biases. rewrite refine_biases_stored.
  destruct (sgd_fold_items (globalMean st)
              (mjoin (replicate (Z.to_nat NUM_ITERS) (stored_ratings (ratingsByUsers st))))
              (init_userBias (ratingsByUsers st)) (init_itemBias (maxItemId st)))
    as [Hlen Hget].
  split.
  - rewrite Hlen. apply length_replicate.
  - intros Hi. rewrite Hget.
    + unfold vec_get, init_itemBias. destruct (0 <=? i)%Z; [|done].
      destruct (replicate _ _ !! _) as [x|] eqn:E; [|done].
      by apply lookup_replicate in E as [-> _].
    + intros Hin. apply Hi.
      apply list_elem_of_fmap in Hin as [[u i'] [Hi' Hin]]. simpl in Hi'. subst i'.
      apply list_elem_of_fmap in Hin as [[[u' i'] r] [Heq Hin]].
      simpl in Heq. injection Heq as <- <-.
      apply list_elem_of_join in Hin as (l & Hin & Hl).
      apply elem_of_replicate in Hl as [-> _].
      apply stored_rating_in_stream in Hin.
      apply list_elem_of_fmap. exists (u, i). split; [done|].
      apply list_elem_of_fmap. by exists (u, i, r).
Qed.

(** For every item id from 0 on, the list of the item holds exactly the
    users who have a retained rating r for it, each once, with the
    residual of r against globalMean plus the fitted biases of the user
    and the item. *)
Theorem item_lists_hold_the_raters (lines : list (Z * Z * double)) (u i : Z)
    (res : double) :
  (0 ≤ i)%Z →
  let st := ingest lines in
  NoDup (vec_get [] (residuals st) i).*1
  ∧ ((u, res) ∈ vec_get [] (residuals st) i
     ↔ ∃ row r, ratingsByUsers st !! u = Some row ∧ row !! i = Some r
                ∧ res = r - (globalMean st + at_key 0 u (fit_biases st).1
                             + vec_get 0 (fit_biases st).2 i)).
Proof.
  intros Hi st. split; [|by apply residuals_entries].
  apply (vec_get_Forall (λ l : list (Z * double), NoDup l.*1)); [|constructor].
  apply Forall_forall. intros listU Hin.
  unfold residuals in Hin. by apply project_users in Hin as [Hnd _].
Qed.

End BiasShape.


(** *** Co-rating counts *)

Lemma co_rating_fold_count (itemToUser : list (list (Z * double))) (uA uB : Z)
    (items : list Z) (cell : DotData.t) :
  DotData.count (fold_left (co_rating itemToUser uA uB) items cell)
  = (DotData.count cell
     + Z.of_nat (length (filter (co_rated itemToUser uA uB) items)))%Z.
Proof.
  revert cell. induction items as [|i items IH]; intros cell; simpl; [lia|].
  rewrite IH, filter_cons.
  destruct (decide (co_rated itemToUser uA uB i)) as [[[rA HA] [rB HB]]|Hn].
  - unfold co_rating. rewrite HA, HB. simpl. lia.
  - unfold co_rating.
    destruct (residual_of uA _) as [rA|] eqn:HA; [|done].
    destruct (residual_of uB _) as [rB|] eqn:HB; [|done].
    destruct Hn. split; [by rewrite HA | by rewrite HB].
Qed.

Lemma add_product_counts (dotAB : gmap Z (gmap Z DotData.t)) (pa pb : Z * double) :
  counts_positive dotAB → counts_positive (add_product dotAB pa pb).
Proof.
  intros Hd a row b cell. unfold add_product.
  set (k := if (pb.1 <? pa.1)%Z then (pb.1, pb.2, pa.1, pa.2) else (pa.1, pa.2, pb.1, pb.2)).
  destruct k as [[[uA rA] uB] rB].
  assert (0 ≤ DotData.count (at_key DotData.new uB (at_key ∅ uA dotAB)))%Z as Hold.
  { unfold at_key. destruct (dotAB !! uA) as [rowA|] eqn:EA; simpl; [|done].
    destruct (rowA !! uB) as [c|] eqn:EB; simpl; [|done].
    pose proof (Hd uA rowA uB c EA EB). lia. }
  destruct (decide (a = uA)) as [->|Hne].
  - rewrite lookup_insert_eq. intros [= <-].
    destruct (decide (b = uB)) as [->|Hne'].
    + rewrite lookup_insert_eq. intros [= <-]. simpl. lia.
    + rewrite lookup_insert_ne by done. unfold at_key.
      destruct (dotAB !! uA) as [rowA|] eqn:EA; simpl; [|done].
      by apply (Hd uA rowA b cell).
  - rewrite lookup_insert_ne by done. apply Hd.
Qed.

Lemma dotProducts_counts (maxItem : Z) (itemToUser : list (list (Z * double))) :
  counts_positive (dotProducts maxItem itemToUser).
Proof.
  unfold dotProducts.
  assert (counts_positive ∅) as Hd by (intros a row b cell; by rewrite lookup_empty).
  revert Hd. generalize (∅ : gmap Z (gmap Z DotData.t)).
  induction (int_range 1 maxItem) as [|i items IH]; intros dotAB Hd; [done|].
  simpl. apply IH. clear IH.
  revert dotAB Hd. induction (vec_get [] itemToUser i) as [|pa rest IH];
    intros dotAB Hd; [done|].
  simpl. apply IH. clear IH.
  revert dotAB Hd. induction rest as [|pb rest IH]; intros dotAB Hd; [done|].
  simpl. by apply IH, add_product_counts.
Qed.

(** Every cell of the accumulator is keyed by a pair uA < uB, and its
    count is the number of item ids in [1, maxItemId] whose list holds
    both users: at least 1, at most maxItemId. *)
Theorem co_rating_count (maxItem : Z) (itemToUser : list (list (Z * double)))
    (uA uB : Z) (row : gmap Z DotData.t) (cell : DotData.t) :
  Forall (λ listU, NoDup listU.*1) itemToUser →
  dotProducts maxItem itemToUser !! uA = Some row → row !! uB = Some cell →
  (uA < uB)%Z
  ∧ DotData.count cell
    = Z.of_nat (length (filter (co_rated itemToUser uA uB) (int_range 1 maxItem)))
  ∧ (1 ≤ DotData.count cell ≤ maxItem)%Z.
Proof.
  intros Hnd Hrow Hcell.
  assert (uA < uB)%Z as Hlt.
  { apply (dotProducts_cells Z.lt maxItem itemToUser) with row; [|done|by exists cell].
    eapply Forall_impl; [exact Hnd|]. intros listU HlistU. by split. }
  assert (DotData.count cell
          = Z.of_nat (length (filter (co_rated itemToUser uA uB) (int_range 1 maxItem))))
    as Hcount.
  { pose proof (dotProducts_fold uA uB itemToUser (int_range 1 maxItem) ∅ Hlt Hnd) as Hfold.
    fold (dotProducts maxItem itemToUser) in Hfold.
    unfold at_key in Hfold at 1 2. rewrite Hrow in Hfold. simpl in Hfold.
    rewrite Hcell in Hfold. simpl in Hfold. rewrite Hfold, co_rating_fold_count.
    unfold at_key. rewrite lookup_empty. simpl. rewrite lookup_empty. simpl. lia. }
  pose proof (dotProducts_counts maxItem itemToUser uA row uB cell Hrow Hcell) as Hpos.
  split_and!; [done | done | done |].
  rewrite Hcount in *.
  pose proof (length_filter (co_rated itemToUser uA uB) (int_range 1 maxItem)) as Hle.
  unfold int_range in Hle at 2. rewrite length_fmap, length_seq in Hle. lia.
Qed.


(** *** The queues after neighbour selection *)

Section QueueShape.
Context `{!Traversal} `{!PriorityQueue}.
Variable pow : double → double → double.

Lemma push_bounded_nonempty (s : Similarity.t) (q : pq) :
  (1 ≤ Z.of_nat (pq_size (push_bounded s q)))%Z.
Proof.
  unfold push_bounded. simpl.
  destruct (Z.ltb_spec K (Z.of_nat (pq_size (pq_push s q)))) as [Hlt|Hge].
  - destruct (pq_top_nonempty (pq_push s q)) as [e He].
    { rewrite pq_size_push. done. }
    pose proof (pq_size_pop _ e He). unfold K in Hlt. lia.
  - rewrite pq_size_push. lia.
Qed.

Lemma register_nonempty (cs : list (Z * Z * double)) (top : gmap Z pq) :
  (∀ u q, top !! u = Some q → (1 ≤ Z.of_nat (pq_size q))%Z) →
  ∀ u q, fold_left register cs top !! u = Some q → (1 ≤ Z.of_nat (pq_size q))%Z.
Proof.
  assert (∀ v s (top : gmap Z pq),
            (∀ u q, top !! u = Some q → (1 ≤ Z.of_nat (pq_size q))%Z) →
            ∀ u q, offer v s top !! u = Some q → (1 ≤ Z.of_nat (pq_size q))%Z) as Hoffer.
  { intros v s top' Htop u q. destruct (decide (v = u)) as [->|Hne].
    - rewrite offer_lookup. intros [= <-]. apply push_bounded_nonempty.
    - rewrite offer_lookup_ne by done. apply Htop. }
  revert top. induction cs as [|[[uA uB] s] cs IH]; intros top Htop; [done|].
  simpl. apply IH. by do 2 apply Hoffer.
Qed.

(** After neighbour selection every queue that exists holds at least one
    entry and at most K = 190. *)
Theorem queue_sizes (dotAB : gmap Z (gmap Z DotData.t)) (magnitudeMap : gmap Z double)
    (u : Z) (q : pq) :
  selectNeighbors pow dotAB magnitudeMap !! u = Some q →
  (1 ≤ Z.of_nat (pq_size q) ≤ 190)%Z.
Proof.
  intros Hq. split.
  - rewrite selectNeighbors_candidates in Hq.
    apply (register_nonempty (candidates pow dotAB magnitudeMap) ∅) with u; [|done].
    intros u' q'. by rewrite lookup_empty.
  - pose proof (selectNeighbors_bound pow dotAB magnitudeMap u) as Hb.
    unfold neighbours, at_key in Hb. rewrite Hq in Hb. simpl in Hb.
    by rewrite <- pq_size_elements in Hb.
Qed.

(** Once a user's queue holds K entries, a candidate whose similarity
    exceeds that of every stored entry is not kept: the queue holds the
    same entries after the offer as before. *)
Theorem full_queue_drops_greater (u : Z) (s : Similarity.t) (top : gmap Z pq) :
  Z.of_nat (length (neighbours u top)) = K →
  (∀ y, y ∈ neighbours u top → Similarity.lt y s = true) →
  neighbours u (offer u s top) ≡ₚ neighbours u top.
Proof.
  intros Hfull Hgt. rewrite neighbours_size in Hfull. rewrite neighbours_offer.
  destruct (push_bounded_full s (at_key pq_new u top)) as (e & He & Hperm & Hmax);
    [lia|].
  fold (neighbours u top) in Hperm, Hmax.
  assert (e ∈ s :: neighbours u top) as [->|Hin]%elem_of_cons
    by (rewrite Hperm; left).
  - symmetry. by apply Permutation_cons_inv with s.
  - pose proof (Hmax s (list_elem_of_here _ _)) as Hf.
    rewrite (Hgt e Hin) in Hf. done.
Qed.

(** A user whose magnitude is zero has no neighbour after the selection
    and is the neighbour of nobody: the cosine of such a pair is taken as
    0 and the pair is skipped. *)
Theorem zero_magnitude_isolated (dotAB : gmap Z (gmap Z DotData.t))
    (magnitudeMap : gmap Z double) (u : Z) :
  PrimFloat.eqb (at_key 0 u magnitudeMap) 0 = true →
  neighbours u (selectNeighbors pow dotAB magnitudeMap) = []
  ∧ ∀ v x, x ∈ neighbours v (selectNeighbors pow dotAB magnitudeMap) →
           Similarity.userB x ≠ u.
Proof.
  intros Hzero.
  assert (∀ uA uB s, (uA, uB, s) ∈ candidates pow dotAB magnitudeMap →
                     uA ≠ u ∧ uB ≠ u) as Hcand.
  { intros uA uB s (row & cell & _ & _ & Hs)%candidates_elem.
    unfold finalSimilarity, cosineSimilarity in Hs.
    split; intros ->; rewrite Hzero in Hs; [done|].
    rewrite orb_true_r in Hs. done. }
  assert (∀ v x, x ∈ neighbours v (selectNeighbors pow dotAB magnitudeMap) →
                 v ≠ u ∧ Similarity.userB x ≠ u) as Hnb.
  { intros v x Hx. rewrite selectNeighbors_candidates in Hx.
    apply register_sub in Hx as [Hx|Hx].
    - unfold offered in Hx. apply list_elem_of_bind in Hx as [[[uA uB] s] [Hx Hc]].
      apply Hcand in Hc as [HA HB]. simpl in Hx.
      apply elem_of_app in Hx as [Hx|Hx]; case_decide; try (by apply elem_of_nil in Hx);
        apply list_elem_of_singleton in Hx; subst; done.
    - unfold neighbours, at_key in Hx. rewrite lookup_empty in Hx. simpl in Hx.
      rewrite pq_new_elements in Hx. by apply elem_of_nil in Hx. }
  split; [|intros v x Hx; by apply (Hnb v x)].
  destruct (neighbours u _) as [|x l] eqn:E; [done|].
  destruct (Hnb u x) as [Hu _]; [rewrite E; left | done].
Qed.

(** The loop of a query pops every entry of the queue exactly once and
    then stops, and it pops them in order of non-increasing similarity: no
    entry is exceeded by one popped after it. *)
Theorem query_loop_order (q : pq) :
  pops (pq_size q) q ≡ₚ pq_elements q
  ∧ StronglySorted (λ x y, Similarity.lt x y = false) (pops (pq_size q) q).
Proof.
  split; [apply pops_all|].
  remember (pq_size q) as n eqn:Hn. revert q Hn.
  induction n as [|n IH]; intros q Hn; simpl; [constructor|].
  rewrite <- Hn. simpl.
  destruct (pq_top_nonempty q) as [x Hx]; [lia|]. rewrite Hx.
  pose proof (pq_size_pop q x Hx) as Hpop.
  assert (n = pq_size (pq_pop q)) as Hn' by lia.
  constructor; [by apply IH|].
  apply Forall_forall. intros y Hy. apply (pq_top_greatest q x Hx).
  rewrite (pq_pop_elements q x Hx). right.
  rewrite Hn' in Hy. by rewrite <- pops_all.
Qed.

End QueueShape.


(** *** Neighbours and predictions of a trained model *)

Section Trained.
Context `{!Traversal} `{!PriorityQueue}.
Variable pow : double → double → double.

Lemma cell_has_co_rated_item (maxItem : Z) (itemToUser : list (list (Z * double)))
    (uA uB : Z) (row : gmap Z DotData.t) (cell : DotData.t) :
  Forall (λ listU, NoDup listU.*1) itemToUser →
  dotProducts maxItem itemToUser !! uA = Some row → row !! uB = Some cell →
  (uA < uB)%Z ∧ ∃ i, (1 ≤ i ≤ maxItem)%Z ∧ co_rated itemToUser uA uB i.
Proof.
  intros Hnd Hrow Hcell.
  assert (uA < uB)%Z as Hlt.
  { apply (dotProducts_cells Z.lt maxItem itemToUser) with row; [|done|by exists cell].
    eapply Forall_impl; [exact Hnd|]. intros listU HlistU. by split. }
  split; [done|].
  pose proof (dotProducts_fold uA uB itemToUser (int_range 1 maxItem) ∅ Hlt Hnd) as Hfold.
  fold (dotProducts maxItem itemToUser) in Hfold.
  unfold at_key in Hfold at 1 2. rewrite Hrow in Hfold. simpl in Hfold.
  rewrite Hcell in Hfold. simpl in Hfold.
  apply (f_equal DotData.count) in Hfold. rewrite co_rating_fold_count in Hfold.
  unfold at_key in Hfold. rewrite lookup_empty in Hfold. simpl in Hfold.
  rewrite lookup_empty in Hfold. simpl in Hfold.
  pose proof (dotProducts_counts maxItem itemToUser uA row uB cell Hrow Hcell) as Hpos.
  destruct (filter (co_rated itemToUser uA uB) (int_range 1 maxItem)) as [|i l] eqn:E;
    [simpl in Hfold; lia|].
  assert (i ∈ filter (co_rated itemToUser uA uB) (int_range 1 maxItem)) as Hi
    by (rewrite E; left).
  apply list_elem_of_filter in Hi as [Hco Hi]. exists i. split; [|done].
  unfold int_range in Hi. apply list_elem_of_fmap in Hi as [k [-> Hk]].
  apply elem_of_seq in Hk. lia.
Qed.

(** Every entry of a user's queue has a strictly positive similarity and
    names a user other than the owner, and the two users have retained
    ratings for a common item whose id lies in [1, maxItemId]. *)
Theorem neighbours_are_co_raters (lines : list (Z * Z * double)) (u : Z)
    (x : Similarity.t) :
  let m := train pow lines in
  x ∈ neighbours u (m_top m) →
  Double.gtb (Similarity.value x) 0 = true
  ∧ Similarity.userB x ≠ u
  ∧ ∃ i row row', (1 ≤ i ≤ m_maxItem m)%Z
      ∧ m_ratings m !! u = Some row ∧ is_Some (row !! i)
      ∧ m_ratings m !! Similarity.userB x = Some row' ∧ is_Some (row' !! i).
Proof.
  intros m Hx. unfold m, train in Hx. simpl in Hx.
  rewrite selectNeighbors_candidates in Hx. apply register_sub in Hx as [Hx|Hx].
  2:{ unfold neighbours, at_key in Hx. rewrite lookup_empty in Hx. simpl in Hx.
      rewrite pq_new_elements in Hx. by apply elem_of_nil in Hx. }
  unfold offered in Hx. apply list_elem_of_bind in Hx as [[[uA uB] s] [Hx Hc]].
  apply candidates_elem in Hc as (row & cell & Hrow & Hcell & Hs).
  apply finalSimilarity_positive in Hs.
  destruct (cell_has_co_rated_item _ _ uA uB row cell
              (residuals_NoDup (ingest lines)) Hrow Hcell)
    as (Hlt & i & Hi & [[rA HA] [rB HB]]).
  apply residual_of_Some, residuals_entries in HA as (rowA & ? & HrowA & HiA & _); [|lia].
  apply residual_of_Some, residuals_entries in HB as (rowB & ? & HrowB & HiB & _); [|lia].
  simpl in Hx.
  apply elem_of_app in Hx as [Hx|Hx]; case_decide; try (by apply elem_of_nil in Hx);
    apply list_elem_of_singleton in Hx; subst; simpl.
  - split_and!; [done | lia |]. exists i, rowA, rowB.
    split_and!; try done; try lia; by eexists.
  - split_and!; [done | lia |]. exists i, rowB, rowA.
    split_and!; try done; try lia; by eexists.
Qed.

Lemma votes_without_ratings (mean : double) (maxItem : Z) (itemBias : list double)
    (itemId : Z) (l : list Similarity.t) (weightedSum sumOfWeights : double)
    (ratings : gmap Z (gmap Z double)) (userBias : gmap Z double) :
  (∀ x, x ∈ l → ratings !! Similarity.userB x ≫= (.!! itemId) = None) →
  ∃ ratings',
    fold_left (vote mean maxItem itemBias itemId) l
              (weightedSum, sumOfWeights, ratings, userBias)
    = (weightedSum, sumOfWeights, ratings', userBias).
Proof.
  revert ratings. induction l as [|x l IH]; intros ratings Hl; [by eexists|].
  simpl. unfold subscript.
  pose proof (Hl x (list_elem_of_here _ _)) as Hx.
  destruct (ratings !! Similarity.userB x) as [row|] eqn:E; simpl in Hx.
  - rewrite Hx. apply IH. intros y Hy. apply Hl. by right.
  - rewrite lookup_empty. apply IH. intros y Hy.
    destruct (decide (Similarity.userB x = Similarity.userB y)) as [Heq|Hne].
    + rewrite <- Heq, lookup_insert_eq. simpl. apply lookup_empty.
    + rewrite lookup_insert_ne by done. apply Hl. by right.
Qed.

(** When none of the user's neighbours has a rating for the queried item,
    both sums of the query stay 0.0 and the prediction is the baseline,
    unchanged. *)
Theorem baseline_when_no_neighbour_rated (m : Model) (userId itemId : Z) :
  (∀ x, x ∈ neighbours userId (m_top m) →
        m_ratings m !! Similarity.userB x ≫= (.!! itemId) = None) →
  (∃ ratings', neighbour_votes m userId itemId = (0, 0, ratings', m_userBias m))
  ∧ (predict m userId itemId).1 = query_baseline m userId itemId.
Proof.
  intros Hnone.
  assert (∃ ratings', neighbour_votes m userId itemId = (0, 0, ratings', m_userBias m))
    as [ratings' Hvotes].
  { unfold neighbour_votes.
    destruct (m_top m !! userId) as [q|] eqn:Hq; [|by eexists].
    rewrite drain_pops.
    apply (votes_without_ratings (m_mean m) (m_maxItem m) (m_itemBias m) itemId
             (pops (pq_size q) q) 0 0 (m_ratings m) (m_userBias m)).
    intros x Hx. apply Hnone. unfold neighbours, at_key. rewrite Hq. simpl.
    by rewrite <- pops_all. }
  split; [by exists ratings'|]. unfold predict. by rewrite Hvotes.
Qed.

(** A query for an item id above maxItemId is answered with globalMean
    plus the user's bias (globalMean alone for an unseen user): the item
    contributes no bias and no neighbour has rated it; the model is left
    as it was. *)
Theorem item_above_range (lines : list (Z * Z * double)) (userId itemId : Z) :
  let m := train pow lines in
  (m_maxItem m < itemId)%Z →
  predict m userId itemId
  = (match m_userBias m !! userId with
     | Some bu => m_mean m + bu
     | None => m_mean m
     end, m).
Proof.
  intros m Hi.
  assert (∀ x, m_ratings m !! Similarity.userB x ≫= (.!! itemId) = None) as Hnone.
  { intros x. destruct (m_ratings m !! Similarity.userB x) as [row|] eqn:E; [|done].
    simpl. destruct (row !! itemId) as [r|] eqn:Er; [|done].
    pose proof (ingest_items lines (Similarity.userB x) itemId row E (mk_is_Some _ _ Er)).
    unfold m, train in Hi. simpl in Hi. lia. }
  assert ((predict m userId itemId).1
          = match m_userBias m !! userId with
            | Some bu => m_mean m + bu
            | None => m_mean m
            end) as H1.
  { unfold predict, neighbour_votes.
    assert (query_baseline m userId itemId
            = match m_userBias m !! userId with
              | Some bu => m_mean m + bu
              | None => m_mean m
              end) as ->.
    { unfold query_baseline.
      replace ((1 <=? itemId)%Z && (itemId <=? m_maxItem m)%Z) with false; [done|].
      symmetry. apply andb_false_iff. right. by apply Z.leb_gt. }
    destruct (m_top m !! userId) as [q|] eqn:Hq; [|done].
    rewrite drain_pops.
    destruct (votes_without_ratings (m_mean m) (m_maxItem m) (m_itemBias m) itemId
                (pops (pq_size q) q) 0 0 (m_ratings m) (m_userBias m))
      as [ratings' ->]; [by intros x _|done]. }
  pose proof (train_predict_frame pow lines userId itemId) as H2. fold m in H2.
  destruct (predict m userId itemId) as [p m']. simpl in *. by subst.
Qed.

End Trained.


(** *** The two sections of the input *)

Section Reader.
Context `{!Traversal} `{!PriorityQueue}.
Variable pow : double → double → double.
Variable extract_rating : string → Z * Z * double → Z * Z * double.
Variable uninit_rating : nat → Z * Z * double.
Variable extract_query : string → Z * Z → Z * Z.
Variable uninit_query : nat → Z * Z.

Lemma read_training_until_test (pre post : list string)
    (records : list (Z * Z * double)) (n : nat) (st : Ingest) :
  "test dataset" ∉ pre →
  Forall2 (yields extract_rating) (filter (λ line, line ≠ "train dataset") pre) records →
  read_training extract_rating uninit_rating (pre ++ "test dataset" :: post) n st
  = (fold_left ingest_line records st, post).
Proof.
  revert records n st.
  induction pre as [|line pre IH]; intros records n st Hpre Hrec; simpl.
  { apply Forall2_nil_inv_l in Hrec as ->. done. }
  apply not_elem_of_cons in Hpre as [Hline Hpre]. rewrite filter_cons in Hrec.
  destruct (decide (line = "train dataset")) as [->|Htrain].
  - rewrite decide_False in Hrec by (by intros ?). by apply IH.
  - rewrite decide_True in Hrec by done. rewrite decide_False by done.
    apply Forall2_cons_inv_l in Hrec as (t & records' & Ht & Hrec & ->).
    rewrite (Ht (uninit_rating n)). simpl. by apply IH.
Qed.

Lemma read_training_to_the_end (input : list string) (n : nat) (st : Ingest) :
  "test dataset" ∉ input →
  (read_training extract_rating uninit_rating input n st).2 = [].
Proof.
  revert n st. induction input as [|line input IH]; intros n st Hin; simpl; [done|].
  apply not_elem_of_cons in Hin as [Hline Hin].
  destruct (decide (line = "train dataset")); [by apply IH|].
  rewrite decide_False by done. by apply IH.
Qed.

Lemma read_queries_yield (rest : list string) (queries : list (Z * Z)) (n : nat)
    (acc : list double * Model) :
  Forall2 (yields extract_query) (filter (λ line, line ≠ "") rest) queries →
  read_queries extract_query uninit_query rest n acc = fold_left answer queries acc.
Proof.
  revert queries n acc.
  induction rest as [|line rest IH]; intros queries n acc Hq; simpl.
  { apply Forall2_nil_inv_l in Hq as ->. done. }
  rewrite filter_cons in Hq. unfold answer_line.
  destruct (decide (line = "")) as [->|Hne].
  - rewrite decide_False in Hq by (by intros ?). by apply IH.
  - rewrite decide_True in Hq by done.
    apply Forall2_cons_inv_l in Hq as (q & queries' & Hq1 & Hq & ->).
    rewrite (Hq1 (uninit_query n)). simpl. by apply IH.
Qed.

(** The first ["test dataset"] line divides the input.  Before it, every
    line other than ["train dataset"] goes through the record extraction,
    wherever the ["train dataset"] lines stand; after it, every non-empty
    line goes through the query extraction.  When each of these lines
    supplies all its fields, so that nothing is left of what the
    variables held before, the output is that of the pipeline on the
    extracted records and queries. *)
Theorem program_sections (pre post : list string) (records : list (Z * Z * double))
    (queries : list (Z * Z)) :
  "test dataset" ∉ pre →
  Forall2 (yields extract_rating) (filter (λ line, line ≠ "train dataset") pre) records →
  Forall2 (yields extract_query) (filter (λ line, line ≠ "") post) queries →
  program pow extract_rating uninit_rating extract_query uninit_query
    (pre ++ "test dataset" :: post)
  = main pow records queries.
Proof.
  intros Hpre Hrec Hq. unfold program.
  rewrite (read_training_until_test pre post records) by done.
  rewrite (read_queries_yield post queries) by done. done.
Qed.

(** An input without a ["test dataset"] line is read to its end by the
    first loop, whatever its lines are, and nothing is written to the
    output. *)
Theorem program_without_test_section (input : list string) :
  "test dataset" ∉ input →
  (read_training extract_rating uninit_rating input 0 ingest_start).2 = []
  ∧ program pow extract_rating uninit_rating extract_query uninit_query input = [].
Proof.
  intros Hin.
  pose proof (read_training_to_the_end input 0 ingest_start Hin) as Hrest.
  split; [done|]. unfold program.
  destruct (read_training extract_rating uninit_rating input 0 ingest_start) as [st rest].
  simpl in Hrest. by subst rest.
Qed.

End Reader.


(** *** Order of the item lists *)

Lemma residual_of_elem (u : Z) (r : double) (listU : list (Z * double)) :
  NoDup listU.*1 → (residual_of u listU = Some r ↔ (u, r) ∈ listU).
Proof.
  intros Hnd. split; [apply residual_of_Some|].
  induction listU as [|[u' r'] l IH]; [by intros ?%elem_of_nil|].
  rewrite fmap_cons in Hnd. apply NoDup_cons in Hnd as [Hu' Hnd]. simpl in *.
  intros [[= -> ->]|Hin]%elem_of_cons.
  - by rewrite decide_True.
  - rewrite decide_False; [by apply IH|].
    intros ->. apply Hu'. by apply (list_elem_of_fmap_2 fst) in Hin.
Qed.

Lemma residual_of_Permutation (u : Z) (l1 l2 : list (Z * double)) :
  l1 ≡ₚ l2 → NoDup l1.*1 → residual_of u l1 = residual_of u l2.
Proof.
  intros Hp Hnd1. assert (NoDup l2.*1) as Hnd2 by by rewrite <- Hp.
  destruct (residual_of u l1) as [r|] eqn:E1.
  - symmetry. apply residual_of_elem; [done|]. rewrite <- Hp.
    by apply residual_of_elem.
  - destruct (residual_of u l2) as [r|] eqn:E2; [|done].
    apply residual_of_elem in E2; [|done]. rewrite <- Hp in E2.
    apply residual_of_elem in E2; [|done]. congruence.
Qed.

Lemma vec_get_Forall2 {A : Type} (R : A → A → Prop) (d : A) (v1 v2 : list A) (i : Z) :
  Forall2 R v1 v2 → R d d → R (vec_get d v1 i) (vec_get d v2 i).
Proof.
  intros Hv Hd. unfold vec_get. destruct (0 <=? i)%Z; [|done].
  destruct (v1 !! Z.to_nat i) as [x|] eqn:E1.
  - destruct (Forall2_lookup_l _ _ _ _ _ Hv E1) as (y & -> & Hxy). done.
  - apply (Forall2_length _ _ _) in Hv as Hlen.
    apply lookup_ge_None in E1. rewrite Hlen in E1.
    apply lookup_ge_None in E1. by rewrite E1.
Qed.

(** The sum and the count accumulated for every pair uA < uB, and the
    magnitude of every user, do not depend on the order of the entries
    within the item lists: two families of lists that agree item by item
    up to order give the same values. *)
Theorem accumulation_ignores_list_order (maxItem : Z)
    (itemToUser1 itemToUser2 : list (list (Z * double))) :
  Forall2 (≡ₚ) itemToUser1 itemToUser2 →
  Forall (λ listU, NoDup listU.*1) itemToUser1 →
  (∀ uA uB, (uA < uB)%Z →
     at_key DotData.new uB (at_key ∅ uA (dotProducts maxItem itemToUser1))
     = at_key DotData.new uB (at_key ∅ uA (dotProducts maxItem itemToUser2)))
  ∧ (∀ u, at_key 0 u (magnitudes maxItem itemToUser1)
          = at_key 0 u (magnitudes maxItem itemToUser2)).
Proof.
  intros Hperm Hnd1.
  assert (Forall (λ listU : list (Z * double), NoDup listU.*1) itemToUser2) as Hnd2.
  { apply Forall_forall. intros l2 [n Hl2]%list_elem_of_lookup.
    destruct (Forall2_lookup_r _ _ _ _ _ Hperm Hl2) as (l1 & Hl1 & Hp).
    rewrite <- Hp.
    by apply (Forall_lookup_1 (λ l : list (Z * double), NoDup l.*1) itemToUser1 n). }
  assert (∀ u i, residual_of u (vec_get [] itemToUser1 i)
                 = residual_of u (vec_get [] itemToUser2 i)) as Hres.
  { intros u i. apply residual_of_Permutation.
    - by apply vec_get_Forall2.
    - apply (vec_get_Forall (λ l : list (Z * double), NoDup l.*1)); [done | constructor]. }
  split.
  - intros uA uB Hlt. unfold dotProducts. rewrite !dotProducts_fold by done.
    apply fold_left_pointwise. intros cell i. unfold co_rating. by rewrite !Hres.
  - intros u. unfold magnitudes. rewrite !magnitudes_fold by done.
    apply fold_left_pointwise. intros mag i. unfold squared_residual. by rewrite Hres.
Qed.

(** *** Who is in the model *)

Lemma ingest_line_rows (lines : list (Z * Z * double)) (st : Ingest) :
  (∀ u row, ratingsByUsers st !! u = Some row → row ≠ ∅) →
  ∀ u row, ratingsByUsers (fold_left ingest_line lines st) !! u = Some row → row ≠ ∅.
Proof.
  revert st. induction lines as [|[[u' i'] r'] lines IH]; intros st Hst; [done|].
  simpl. apply IH. simpl. intros u row.
  destruct (decide (u' = u)) as [->|Hne].
  - rewrite lookup_insert_eq. intros [= <-]. apply insert_non_empty.
  - rewrite lookup_insert_ne by done. apply Hst.
Qed.


Section TrainedUsers.
Context `{!Traversal} `{!PriorityQueue}.
Variable pow : double → double → double.

(** The users of the training stream, and no others, have a row in the
    rating store and a bias entry, and no row of the store is empty. *)
Theorem users_of_the_model (lines : list (Z * Z * double)) (u : Z) :
  let m := train pow lines in
  (is_Some (m_ratings m !! u) ↔ u ∈ lines.*1.*1)
  ∧ (is_Some (m_userBias m !! u) ↔ u ∈ lines.*1.*1)
  ∧ (∀ row, m_ratings m !! u = Some row → row ≠ ∅).
Proof.
  intros m. split_and!.
  - rewrite <- elem_of_dom. unfold m, train. simpl. apply ingest_users.
  - rewrite <- elem_of_dom. apply train_userBias_dom.
  - unfold m, train, ingest. simpl. apply ingest_line_rows.
    intros u' row'. simpl. by rewrite lookup_empty.
Qed.

(** *** No neighbour twice *)

Lemma push_bounded_submseteq (s : Similarity.t) (q : pq) :
  pq_elements (push_bounded s q) ⊆+ s :: pq_elements q.
Proof.
  destruct (Z.lt_ge_cases (Z.of_nat (pq_size q)) K) as [Hlt|Hge].
  - apply Permutation_submseteq. by apply push_bounded_room.
  - destruct (push_bounded_full s q Hge) as (e & _ & Hperm & _).
    rewrite Hperm. by apply submseteq_cons.
Qed.

Lemma offer_submseteq (u u' : Z) (s : Similarity.t) (top : gmap Z pq) :
  neighbours u' (offer u s top)
  ⊆+ (if decide (u = u') then [s] else []) ++ neighbours u' top.
Proof.
  case_decide as E.
  - subst u'. rewrite neighbours_offer. apply push_bounded_submseteq.
  - by rewrite neighbours_offer_ne.
Qed.

Lemma register_submseteq (u : Z) (cs : list (Z * Z * double)) (top : gmap Z pq) :
  neighbours u (fold_left register cs top) ⊆+ offered u cs ++ neighbours u top.
Proof.
  revert top. induction cs as [|[[uA uB] s] cs IH]; intros top; [done|].
  rewrite offered_cons. simpl.
  set (sA := {| Similarity.userB := uB; Similarity.value := s |}).
  set (sB := {| Similarity.userB := uA; Similarity.value := s |}).
  etrans; [apply IH|].
  etrans; [apply submseteq_skips_l, offer_submseteq|].
  etrans; [apply submseteq_skips_l, submseteq_skips_l, offer_submseteq|].
  apply Permutation_submseteq.
  destruct (decide (uA = u)), (decide (uB = u)); simpl;
    rewrite <- ?Permutation_middle; try done. apply perm_swap.
Qed.

Lemma offered_elem (u : Z) (x : Similarity.t) (cs : list (Z * Z * double)) :
  x ∈ offered u cs
  ↔ ∃ c, c ∈ cs ∧ ((c.1.1 = u ∧ x = Similarity.mk c.1.2 c.2)
                   ∨ (c.1.2 = u ∧ x = Similarity.mk c.1.1 c.2)).
Proof.
  unfold offered. rewrite list_elem_of_bind. split.
  - intros (c & Hx & Hc). exists c. split; [done|].
    apply elem_of_app in Hx as [Hx|Hx]; case_decide; try (by apply elem_of_nil in Hx);
      apply list_elem_of_singleton in Hx; [by left | by right].
  - intros (c & Hc & [[Hu ->]|[Hu ->]]); exists c; (split; [|done]);
      apply elem_of_app; [left | right]; rewrite decide_True by done; left.
Qed.

Lemma offered_ids_NoDup (u : Z) (cs : list (Z * Z * double)) :
  NoDup cs.*1 → (∀ c, c ∈ cs → (c.1.1 < c.1.2)%Z) →
  NoDup (Similarity.userB <$> offered u cs).
Proof.
  induction cs as [|[[a b] s] cs IH]; intros Hnd Hlt; [constructor|].
  rewrite fmap_cons in Hnd. apply NoDup_cons in Hnd as [Hc Hnd]. simpl in Hc.
  assert (NoDup (Similarity.userB <$> offered u cs)) as IH'.
  { apply IH; [done|]. intros c ?. apply Hlt. by right. }
  pose proof (Hlt (a, b, s) (list_elem_of_here _ _)) as Hab. simpl in Hab.
  assert (∀ id, (a = u ∧ id = b) ∨ (b = u ∧ id = a) →
                id ∉ Similarity.userB <$> offered u cs) as Hfresh.
  { intros id Hid [x [-> Hx]]%list_elem_of_fmap.
    apply offered_elem in Hx as ([[a' b'] s'] & Hc' & Hx). simpl in Hx.
    pose proof (Hlt _ (list_elem_of_further _ _ _ Hc')) as Hab'. simpl in Hab'.
    assert ((a', b') ≠ (a, b)) as Hne.
    { intros E. apply Hc. rewrite <- E. by apply (list_elem_of_fmap_2 fst) in Hc'. }
    destruct Hx as [[-> ->]|[-> ->]], Hid as [[? Hid]|[? Hid]]; simpl in Hid;
      subst; try lia; by destruct Hne. }
  rewrite offered_cons, !fmap_app. simpl.
  destruct (decide (a = u)) as [Ea|Ea], (decide (b = u)) as [Eb|Eb]; simpl;
    try lia; try done.
  - apply NoDup_cons. split; [|done]. apply Hfresh. by left.
  - apply NoDup_cons. split; [|done]. apply Hfresh. by right.
Qed.

Lemma candidates_NoDup (dotAB : gmap Z (gmap Z DotData.t)) (magnitudeMap : gmap Z double) :
  NoDup (candidates pow dotAB magnitudeMap).*1.
Proof.
  unfold candidates.
  set (f := λ mapA : Z * gmap Z DotData.t,
         (λ mapB : Z * DotData.t, (mapA.1, mapB.1))
           <$> filter (λ mapB : Z * DotData.t,
                         is_Some (finalSimilarity pow mapB.2
                                    (at_key 0 mapA.1 magnitudeMap)
                                    (at_key 0 mapB.1 magnitudeMap)))
                      (traverse mapA.2)).
  assert (∀ l : list (Z * gmap Z DotData.t),
            (l ≫= λ mapA, traverse mapA.2 ≫= λ mapB,
               match finalSimilarity pow mapB.2 (at_key 0 mapA.1 magnitudeMap)
                                     (at_key 0 mapB.1 magnitudeMap) with
               | Some finalSim => [(mapA.1, mapB.1, finalSim)]
               | None => []
               end).*1 = l ≫= f) as ->.
  { induction l as [|p l IH]; [done|].
    rewrite !bind_cons, fmap_app, IH. f_equal. unfold f.
    induction (traverse p.2) as [|mB ms IHm]; [done|].
    rewrite bind_cons, fmap_app, IHm, filter_cons.
    destruct (finalSimilarity pow mB.2 _ _) as [s|] eqn:E.
    - rewrite decide_True by (by eexists). done.
    - rewrite decide_False by (by intros [? ?]). done. }
  apply NoDup_bind.
  - intros [u1 row1] [u2 row2] [a b] H1 H2 Hy1 Hy2. unfold f in Hy1, Hy2. simpl in *.
    apply list_elem_of_fmap in Hy1 as [m1 [[= -> ->] _]].
    apply list_elem_of_fmap in Hy2 as [m2 [[= -> _] _]].
    apply traverse_elem in H1, H2. congruence.
  - intros [a row] _. unfold f. simpl. apply NoDup_fmap_2_strong.
    + intros [b1 c1] [b2 c2] [_ H1]%list_elem_of_filter [_ H2]%list_elem_of_filter [= E].
      subst. apply traverse_elem in H1, H2. congruence.
    + apply NoDup_filter. eapply NoDup_fmap_1, traverse_NoDup_keys.
  - eapply NoDup_fmap_1, traverse_NoDup_keys.
Qed.

(** No user appears twice among the neighbours of a user: a neighbour
    votes at most once in a query. *)
Theorem neighbours_are_distinct (lines : list (Z * Z * double)) (u : Z) :
  NoDup (Similarity.userB <$> neighbours u (m_top (train pow lines))).
Proof.
  unfold train. simpl. rewrite selectNeighbors_candidates.
  set (st := ingest lines). set (cs := candidates pow _ _).
  pose proof (register_submseteq u cs ∅) as Hsub.
  assert (neighbours u (∅ : gmap Z pq) = []) as Hnil.
  { unfold neighbours, at_key. rewrite lookup_empty. apply pq_new_elements. }
  rewrite Hnil, app_nil_r in Hsub.
  apply submseteq_Permutation in Hsub as [k Hk].
  assert (NoDup (Similarity.userB <$> offered u cs)) as Hnd.
  { apply offered_ids_NoDup; [apply candidates_NoDup|].
    intros [[a b] s] (row & cell & Hrow & Hcell & _)%candidates_elem. simpl.
    apply (dotProducts_cells Z.lt (maxItemId st) (residuals st)) with row;
      [|done|by exists cell].
    eapply Forall_impl; [apply residuals_NoDup|]. intros listU HlistU. by split. }
  rewrite Hk, fmap_app in Hnd. by apply NoDup_app in Hnd as [Hnd _].
Qed.

End TrainedUsers.


(** *** Ratings that the global mean already fits *)

Section MeanFits.
Context `{!Traversal} `{!PriorityQueue}.
Variable pow : double → double → double.

Lemma vec_get_alter {A : Type} (d : A) (f : A → A) (v : list A) (i j : Z) :
  vec_get d (vec_alter f v i) j = vec_get d v j
  ∨ (j = i ∧ vec_get d (vec_alter f v i) j = f (vec_get d v i)).
Proof.
  destruct (decide (i = j)) as [->|Hne]; [|left; by apply vec_get_alter_ne].
  destruct (decide (0 ≤ j < Z.of_nat (length v))%Z) as [Hin|Hout].
  - right. split; [done|]. by apply vec_get_alter_eq.
  - left. unfold vec_get, vec_alter. destruct (Z.leb_spec 0 j); [|done].
    rewrite list_lookup_alter_eq.
    by rewrite (proj2 (lookup_ge_None v (Z.to_nat j))) by lia.
Qed.

Lemma sgd_fold_zero (mean : double) (l : list (Z * Z * double))
    (userBias : gmap Z double) (itemBias : list double) :
  (∀ t, t ∈ l → t.2 - (mean + 0 + 0) = 0) →
  (∀ u, at_key 0 u userBias = 0) → (∀ i, vec_get 0 itemBias i = 0) →
  let b' := fold_left (λ b t, sgd_update mean t.1.1 t.1.2 t.2 b) l (userBias, itemBias) in
  (∀ u, at_key 0 u b'.1 = 0) ∧ (∀ i, vec_get 0 b'.2 i = 0).
Proof.
  revert userBias itemBias.
  induction l as [|[[u i] r] l IH]; intros ub ib Hl Hub Hib; simpl; [done|].
  pose proof (Hl (u, i, r) (list_elem_of_here _ _)) as Herr. simpl in Herr.
  rewrite Hub, Hib, Herr. apply IH.
  - intros t Ht. apply Hl. by right.
  - intros u'. unfold at_key. destruct (decide (u = u')) as [->|Hne].
    + by rewrite lookup_insert_eq.
    + rewrite lookup_insert_ne by done. apply Hub.
  - intros i'. destruct (vec_get_alter 0 (λ cur, cur + ALPHA * (0 - REG * 0)) ib i i')
      as [->|[_ ->]]; [apply Hib|]. by rewrite Hib.
Qed.

(** When the error of every training rating against globalMean is exactly
    0.0, the refinement leaves every user bias and every item bias at
    0.0, every residual is 0.0, and no user gets a neighbour. *)
Theorem mean_fits_every_rating (lines : list (Z * Z * double)) :
  let m := train pow lines in
  (∀ t, t ∈ lines → t.2 - (m_mean m + 0 + 0) = 0) →
  (∀ u, at_key 0 u (m_userBias m) = 0)
  ∧ (∀ i, vec_get 0 (m_itemBias m) i = 0)
  ∧ (∀ i u res, (0 ≤ i)%Z → (u, res) ∈ vec_get [] (residuals (ingest lines)) i → res = 0)
  ∧ m_top m = ∅.
Proof.
  intros m Hfit. set (st := ingest lines).
  assert ((∀ u, at_key 0 u (fit_biases st).1 = 0)
          ∧ (∀ i, vec_get 0 (fit_biases st).2 i = 0)) as [Hub Hib].
  { unfold fit_biases. rewrite refine_biases_stored. apply sgd_fold_zero.
    - intros [[u i] r] Hin. apply Hfit.
      apply list_elem_of_join in Hin as (l & Hin & Hl).
      apply elem_of_replicate in Hl as [-> _]. by apply stored_rating_in_stream.
    - intros u. unfold at_key.
      destruct (init_userBias (ratingsByUsers st) !! u) as [b|] eqn:E; [|done].
      simpl. unfold init_userBias in E. revert E.
      generalize (lookup_empty (M := gmap Z) (A := double) u).
      generalize (∅ : gmap Z double).
      induction (traverse (ratingsByUsers st)) as [|p l IH]; intros ub Hnone; simpl.
      { by rewrite Hnone. }
      destruct (decide (p.1 = u)) as [<-|Hne].
      + clear Hnone. assert (<[p.1 := 0]> ub !! p.1 = Some 0) as Hp
          by apply lookup_insert_eq.
        revert Hp. generalize (<[p.1 := 0]> ub). clear IH.
        induction l as [|p' l IH]; intros ub' Hp; simpl; [congruence|].
        apply IH. destruct (decide (p'.1 = p.1)) as [->|Hne'].
        * apply lookup_insert_eq.
        * by rewrite lookup_insert_ne.
      + destruct (ub !! u) eqn:Eu; [done|].
        clear Hnone. assert (<[p.1 := 0]> ub !! u = None) as Hn
          by by rewrite lookup_insert_ne.
        revert Hn. apply IH.
    - intros i. unfold vec_get, init_itemBias. destruct (0 <=? i)%Z; [|done].
      destruct (replicate _ _ !! _) as [x|] eqn:E; [|done].
      by apply lookup_replicate in E as [-> _]. }
  assert (∀ i u res, (0 ≤ i)%Z → (u, res) ∈ vec_get [] (residuals st) i → res = 0)
    as Hres.
  { intros i u res Hi (row & r & Hrow & Hr & ->)%residuals_entries; [|done].
    fold st. rewrite Hub, Hib. apply (Hfit (u, i, r)).
    apply stored_rating_in_stream, stored_ratings_elem. by exists row. }
  assert (∀ u, at_key 0 u (magnitudes (maxItemId st) (residuals st)) = 0) as Hmag.
  { intros u. unfold magnitudes. rewrite magnitudes_fold by apply residuals_NoDup.
    unfold at_key at 1. rewrite lookup_empty. simpl.
    assert (∀ i, i ∈ int_range 1 (maxItemId st) → (0 ≤ i)%Z) as Hrange.
    { intros i [k [-> _]]%list_elem_of_fmap. lia. }
    revert Hrange. induction (int_range 1 (maxItemId st)) as [|i items IH];
      intros Hrange; [done|].
    simpl. unfold squared_residual at 2.
    destruct (residual_of u _) as [r|] eqn:E.
    - apply residual_of_Some, Hres in E as ->; [|apply Hrange; left].
      apply IH. intros j Hj. apply Hrange. by right.
    - apply IH. intros j Hj. apply Hrange. by right. }
  split_and!; [exact Hub | exact Hib | exact Hres |].
  unfold m, train. simpl. fold st. rewrite selectNeighbors_candidates.
  destruct (candidates pow _ _) as [|[[uA uB] s] cs] eqn:E; [done|].
  assert ((uA, uB, s) ∈ candidates pow (dotProducts (maxItemId st) (residuals st))
                                    (magnitudes (maxItemId st) (residuals st))) as Hc
    by (rewrite E; left).
  apply candidates_elem in Hc as (row & cell & _ & _ & Hs).
  unfold finalSimilarity, cosineSimilarity in Hs. rewrite !Hmag in Hs. done.
Qed.

End MeanFits.


(** *** Votes and the stored residuals *)

Section StoredVotes.
Context `{!Traversal}.

Lemma vote_stored (lines : list (Z * Z * double)) (itemId : Z)
    (l : list Similarity.t) (weightedSum sumOfWeights : double) :
  let st := ingest lines in
  (1 ≤ itemId ≤ maxItemId st)%Z →
  (∀ x, x ∈ l → Similarity.userB x ∈ lines.*1.*1) →
  fold_left (vote (globalMean st) (maxItemId st) (fit_biases st).2 itemId) l
    (weightedSum, sumOfWeights, ratingsByUsers st, (fit_biases st).1)
  = let sums := fold_left (stored_vote (vec_get [] (residuals st) itemId)) l
                  (weightedSum, sumOfWeights) in
    (sums.1, sums.2, ratingsByUsers st, (fit_biases st).1).
Proof.
  intros st Hi. revert weightedSum sumOfWeights.
  induction l as [|x l IH]; intros ws sw Hl; [done|].
  pose proof (Hl x (list_elem_of_here _ _)) as Hx.
  assert (Similarity.userB x ∈ dom (ratingsByUsers st)) as [row Hrow]%elem_of_dom
    by (by apply ingest_users).
  assert (Similarity.userB x ∈ dom (fit_biases st).1) as Hbias
    by (unfold fit_biases; rewrite refine_biases_dom; by apply ingest_users).
  assert (NoDup (vec_get [] (residuals st) itemId).*1) as Hnd.
  { apply (vec_get_Forall (λ l : list (Z * double), NoDup l.*1));
      [apply residuals_NoDup | constructor]. }
  assert (vote (globalMean st) (maxItemId st) (fit_biases st).2 itemId
            (ws, sw, ratingsByUsers st, (fit_biases st).1) x
          = let sums := stored_vote (vec_get [] (residuals st) itemId) (ws, sw) x in
            (sums.1, sums.2, ratingsByUsers st, (fit_biases st).1)) as Hstep.
  { unfold vote, subscript, stored_vote. rewrite Hrow.
    replace ((1 <=? itemId)%Z && (itemId <=? maxItemId st)%Z) with true
      by (symmetry; apply andb_true_iff; split; apply Z.leb_le; lia).
    destruct (row !! itemId) as [nr|] eqn:Hnr.
    - destruct ((fit_biases st).1 !! Similarity.userB x) as [bn|] eqn:Hbn;
        [|by apply not_elem_of_dom in Hbn].
      assert (residual_of (Similarity.userB x) (vec_get [] (residuals st) itemId)
              = Some (nr - (globalMean st + bn + vec_get 0 (fit_biases st).2 itemId)))
        as ->; [|done].
      apply residual_of_elem; [done|]. apply residuals_entries; [lia|].
      exists row, nr. split_and!; [done | done |].
      unfold at_key. fold st. by rewrite Hbn.
    - assert (residual_of (Similarity.userB x) (vec_get [] (residuals st) itemId) = None)
        as ->; [|done].
      destruct (residual_of _ _) as [res|] eqn:E; [|done].
      apply residual_of_Some, residuals_entries in E as (row' & r & Hrow' & Hr & _);
        [|lia].
      fold st in Hrow'. congruence. }
  cbn [fold_left]. rewrite Hstep.
  destruct (stored_vote (vec_get [] (residuals st) itemId) (ws, sw) x) as [ws' sw'].
  apply IH. intros y Hy. apply Hl. by right.
Qed.

End StoredVotes.

Section Votes.
Context `{!Traversal} `{!PriorityQueue}.
Variable pow : double → double → double.

(** In a query for an item id in [1, maxItemId], a neighbour votes exactly
    when it is in the item's list, and with the residual stored there:
    the two sums of the query are those of the stored residuals of the
    popped neighbours, weighted by their similarities, in pop order; the
    prediction is the baseline plus their quotient when the sum of
    weights is positive, and the baseline otherwise. *)
Theorem votes_are_stored_residuals (lines : list (Z * Z * double)) (userId itemId : Z) :
  let m := train pow lines in
  (1 ≤ itemId ≤ m_maxItem m)%Z →
  let sums := fold_left (stored_vote (vec_get [] (residuals (ingest lines)) itemId))
                (query_pops m userId) (0, 0) in
  neighbour_votes m userId itemId = (sums.1, sums.2, m_ratings m, m_userBias m)
  ∧ (predict m userId itemId).1
    = if Double.gtb sums.2 0 then query_baseline m userId itemId + sums.1 / sums.2
      else query_baseline m userId itemId.
Proof.
  intros m Hi sums.
  assert (neighbour_votes m userId itemId = (sums.1, sums.2, m_ratings m, m_userBias m))
    as Hvotes.
  { unfold sums, query_pops, neighbour_votes.
    destruct (m_top m !! userId) as [q|] eqn:Hq; [|done].
    rewrite drain_pops. apply (vote_stored lines itemId); [done|].
    intros x Hx. apply (train_neighbour_users pow lines userId).
    unfold neighbours, at_key. fold m. rewrite Hq. simpl. by rewrite <- pops_all. }
  split; [done|]. unfold predict. rewrite Hvotes. done.
Qed.
End Votes.


(** *** The comparison of queue entries *)

(** [operator<] on queue entries is a strict order: no entry is below
    itself, two entries are never below each other, and it is transitive;
    entries of equal similarity are not ordered, whatever their ids. *)
Theorem similarity_order_strict (a b c : Similarity.t) :
  Similarity.lt a a = false
  ∧ (Similarity.lt a b = true → Similarity.lt b a = false)
  ∧ (Similarity.lt a b = true → Similarity.lt b c = true → Similarity.lt a c = true)
  ∧ (Similarity.value a = Similarity.value b →
     Similarity.lt a b = false ∧ Similarity.lt b a = false).
Proof.
  split_and!.
  - apply Similarity_lt_irrefl.
  - intros Hab. destruct (Similarity.lt b a) eqn:Hba; [|done].
    pose proof (Similarity_lt_trans a b a Hab Hba) as Haa.
    by rewrite Similarity_lt_irrefl in Haa.
  - apply Similarity_lt_trans.
  - intros E. split; by apply Similarity_lt_tie.
Qed.


(** ** The program on concrete inputs *)

Section Runs.
Local Open Scope float_scope.
Local Existing Instance Reference.traversal.
Local Existing Instance ReferenceQueue.queue.

(** C1, as stated, fails: users 1 and 2 both rated item 0, which lies in
    [0, maxItemId] = [0, 0], yet the cell of the pair (1, 2) has co-rating
    count 0 and no magnitude is accumulated. *)
Lemma item_zero_not_accumulated :
  let st := ingest Inputs.item_zero_only in
  ¬ accumulated_from 0 (maxItemId st) (residuals st)
      (dotProducts (maxItemId st) (residuals st))
      (magnitudes (maxItemId st) (residuals st)).
Proof.
  intros st [Hdot _]. specialize (Hdot 1%Z 2%Z eq_refl).
  apply (f_equal DotData.count) in Hdot. vm_compute in Hdot. discriminate.
Qed.

Lemma similarity_accumulates_items_from_1_witness :
  let st := ingest Inputs.two_users in
  Forall (λ listU : list (Z * double), NoDup listU.*1) (residuals st)
  ∧ accumulated_from 1 (maxItemId st) (residuals st)
      (dotProducts (maxItemId st) (residuals st))
      (magnitudes (maxItemId st) (residuals st)).
Proof.
  intros st.
  assert (Forall (λ listU : list (Z * double), NoDup listU.*1) (residuals st)) as Hnd.
  { apply (bool_decide_unpack _). vm_compute. exact I. }
  split; [exact Hnd|].
  exact (similarity_accumulates_items_from_1 (maxItemId st) (residuals st) Hnd).
Defined.

(** C2, as stated, fails: item 0 was rated in training and its fitted
    bias is not zero, yet the baseline of the query (1, 0) leaves it out. *)
Lemma item_zero_bias_not_in_baseline :
  let m := train Reference.pow Inputs.rated_twice in
  vec_get 0 (m_itemBias m) 0 ≠ 0
  ∧ query_baseline m 1 0
    ≠ baseline_with_items_from 0 (Inputs.rated_twice.*1.*1) m 1 0.
Proof.
  intros m. split; intros E.
  - apply (f_equal (λ x, PrimFloat.eqb x 0)) in E. vm_compute in E. discriminate.
  - apply (f_equal (λ x, PrimFloat.eqb x (query_baseline m 1 0))) in E.
    vm_compute in E. discriminate.
Qed.

(** C3, as stated, fails: the rating 5.0 is overwritten by 1.0, the only
    retained rating, whose mean is 1.0; globalMean is 3.0. *)
Lemma overwritten_rating_counts_in_mean :
  let st := ingest Inputs.rated_twice in
  (stored_ratings (ratingsByUsers st)).*2 = [1]
  ∧ globalMean st = 3
  ∧ globalMean st ≠ mean_or_default ((stored_ratings (ratingsByUsers st)).*2).
Proof.
  intros st. split_and!; [by vm_compute | by vm_compute |].
  intros E. apply (f_equal (λ x, PrimFloat.eqb x 3)) in E. vm_compute in E. discriminate.
Qed.

Lemma bias_refinement_in_place_witness :
  let st := ingest Inputs.two_users in
  let after := sgd_update 3 1 1 5 (init_userBias (ratingsByUsers st), [0; 0]) in
  (0 ≤ 1 < Z.of_nat (length [0; 0]))%Z
  ∧ refine_biases 3 (ratingsByUsers st) (init_userBias (ratingsByUsers st), [0; 0])
    = fold_left (λ b (t : Z * Z * double), sgd_update 3 t.1.1 t.1.2 t.2 b)
        (mjoin (replicate 8 (stored_ratings (ratingsByUsers st))))
        (init_userBias (ratingsByUsers st), [0; 0])
  ∧ after.1 !! 1%Z = Some 0.02
  ∧ vec_get 0 after.2 1 = 0.02.
Proof.
  intros st after.
  assert (0 ≤ 1 < Z.of_nat (length [0; 0]))%Z as Hi by (simpl; lia).
  destruct (bias_refinement_in_place 3 (ratingsByUsers st) 1 1 5
              (init_userBias (ratingsByUsers st)) [0; 0] Hi)
    as (Hfit & _ & Hu & Hv & _).
  exact (conj Hi (conj Hfit (conj Hu Hv))).
Defined.



Lemma eviction_removes_greatest_witness :
  let s := Similarity.mk 191 0.9 in
  Z.of_nat (length (neighbours 0 Inputs.full_queue)) = K
  ∧ ∃ e : Similarity.t,
      s :: neighbours 0 Inputs.full_queue
      ≡ₚ e :: neighbours 0 (offer 0 s Inputs.full_queue)
      ∧ (∀ y, y ∈ s :: neighbours 0 Inputs.full_queue → Similarity.lt e y = false)
      ∧ Z.of_nat (length (neighbours 0 (offer 0 s Inputs.full_queue))) = K.
Proof.
  intros s.
  assert (Z.of_nat (length (neighbours 0 Inputs.full_queue)) = K) as Hfull
    by (vm_compute; reflexivity).
  split; [exact Hfull|].
  exact (eviction_removes_greatest 0 s Inputs.full_queue Hfull).
Defined.

(** On that input the new entry has the largest similarity of the 191
    and is the one that goes: the 190 smaller ones stay. *)
Lemma best_candidate_evicted :
  let s := Similarity.mk 191 0.9 in
  Forall (λ y, Similarity.lt y s = true) (neighbours 0 Inputs.full_queue)
  ∧ neighbours 0 (offer 0 s Inputs.full_queue) = neighbours 0 Inputs.full_queue.
Proof.
  intros s. split.
  - apply (bool_decide_unpack _). vm_compute. exact I.
  - vm_compute. reflexivity.
Qed.

Lemma registration_symmetric_witness :
  let s := (1 / 11)%float in
  let cs := candidates Reference.pow Inputs.one_pair Inputs.unit_magnitudes in
  let top := selectNeighbors Reference.pow Inputs.one_pair Inputs.unit_magnitudes in
  Inputs.one_pair !! 1%Z = Some {[ 2%Z := DotData.mk 1 1 ]}
  ∧ ({[ 2%Z := DotData.mk 1 1 ]} : gmap Z DotData.t) !! 2%Z = Some (DotData.mk 1 1)
  ∧ finalSimilarity Reference.pow (DotData.mk 1 1)
      (at_key 0 1 Inputs.unit_magnitudes) (at_key 0 2 Inputs.unit_magnitudes) = Some s
  ∧ Similarity.mk 2 s ∈ neighbours 1 top
  ∧ Similarity.mk 1 s ∈ neighbours 2 top.
Proof.
  intros s cs top.
  assert (Inputs.one_pair !! 1%Z = Some {[ 2%Z := DotData.mk 1 1 ]}) as Hrow
    by (vm_compute; reflexivity).
  assert (({[ 2%Z := DotData.mk 1 1 ]} : gmap Z DotData.t) !! 2%Z
          = Some (DotData.mk 1 1)) as Hcell by (vm_compute; reflexivity).
  assert (finalSimilarity Reference.pow (DotData.mk 1 1)
            (at_key 0 1 Inputs.unit_magnitudes) (at_key 0 2 Inputs.unit_magnitudes)
          = Some s) as Hs by (vm_compute; reflexivity).
  destruct (registration_symmetric Reference.pow Inputs.one_pair Inputs.unit_magnitudes
              1 2 _ _ s Hrow Hcell Hs) as (_ & _ & _ & _ & HA & HB).
  split_and!; [exact Hrow | exact Hcell | exact Hs | apply HA | apply HB];
    apply Z.leb_le; vm_compute; reflexivity.
Defined.

Lemma unseen_user_prediction_witness :
  let m := train Reference.pow Inputs.two_users in
  (3%Z ∉ Inputs.two_users.*1.*1)
  ∧ m_userBias m !! 3%Z = None
  ∧ m_top m !! 3%Z = None
  ∧ neighbour_votes m 3 1 = (0, 0, m_ratings m, m_userBias m)
  ∧ predict m 3 1 = (m_mean m + vec_get 0 (m_itemBias m) 1, m).
Proof.
  intros m.
  assert (3%Z ∉ Inputs.two_users.*1.*1) as Hunseen.
  { apply (bool_decide_unpack _). vm_compute. exact I. }
  destruct (unseen_user_prediction Reference.pow Inputs.two_users 3 1 Hunseen)
    as (Hb & Ht & Hv & Hp).
  split_and!; [exact Hunseen | exact Hb | exact Ht | exact Hv | exact Hp].
Defined.

(** *** The further properties on concrete inputs *)

Lemma item_lists_hold_the_raters_witness :
  let st := ingest Inputs.two_users in
  let res := 4 - (globalMean st + at_key 0 1 (fit_biases st).1
                  + vec_get 0 (fit_biases st).2 1) in
  (0 ≤ 1)%Z
  ∧ NoDup (vec_get [] (residuals st) 1).*1
  ∧ (1%Z, res) ∈ vec_get [] (residuals st) 1.
Proof.
  intros st res.
  assert (0 ≤ 1)%Z as Hi by lia.
  destruct (item_lists_hold_the_raters Inputs.two_users 1 1 res Hi) as [Hnd Hiff].
  split_and!; [exact Hi | exact Hnd |].
  apply Hiff. exists (at_key ∅ 1 (ratingsByUsers st)), 4.
  split_and!; vm_compute; reflexivity.
Defined.

Lemma co_rating_count_witness :
  let itemToUser := residuals (ingest Inputs.two_users) in
  let row := at_key ∅ 1 (dotProducts 2 itemToUser) in
  let cell := at_key DotData.new 2 row in
  Forall (λ listU : list (Z * double), NoDup listU.*1) itemToUser
  ∧ dotProducts 2 itemToUser !! 1%Z = Some row
  ∧ row !! 2%Z = Some cell
  ∧ (1 < 2)%Z
  ∧ DotData.count cell
    = Z.of_nat (length (filter (co_rated itemToUser 1 2) (int_range 1 2)))
  ∧ (1 ≤ DotData.count cell ≤ 2)%Z.
Proof.
  intros itemToUser row cell.
  assert (Forall (λ listU : list (Z * double), NoDup listU.*1) itemToUser) as Hnd.
  { apply (bool_decide_unpack _). vm_compute. exact I. }
  assert (dotProducts 2 itemToUser !! 1%Z = Some row) as Hrow
    by (vm_compute; reflexivity).
  assert (row !! 2%Z = Some cell) as Hcell by (vm_compute; reflexivity).
  destruct (co_rating_count 2 itemToUser 1 2 row cell Hnd Hrow Hcell)
    as (Hlt & Hcount & Hbound).
  exact (conj Hnd (conj Hrow (conj Hcell (conj Hlt (conj Hcount Hbound))))).
Defined.

Lemma queue_sizes_witness :
  let top := selectNeighbors Reference.pow Inputs.one_pair Inputs.unit_magnitudes in
  let q := at_key pq_new 1 top in
  top !! 1%Z = Some q ∧ (1 ≤ Z.of_nat (pq_size q) ≤ 190)%Z.
Proof.
  intros top q.
  assert (top !! 1%Z = Some q) as Hq by (vm_compute; reflexivity).
  exact (conj Hq (queue_sizes Reference.pow Inputs.one_pair Inputs.unit_magnitudes 1 q Hq)).
Defined.

Lemma full_queue_drops_greater_witness :
  let s := Similarity.mk 191 0.9 in
  Z.of_nat (length (neighbours 0 Inputs.full_queue)) = K
  ∧ (∀ y, y ∈ neighbours 0 Inputs.full_queue → Similarity.lt y s = true)
  ∧ neighbours 0 (offer 0 s Inputs.full_queue) ≡ₚ neighbours 0 Inputs.full_queue.
Proof.
  intros s.
  assert (Z.of_nat (length (neighbours 0 Inputs.full_queue)) = K) as Hfull
    by (vm_compute; reflexivity).
  assert (∀ y, y ∈ neighbours 0 Inputs.full_queue → Similarity.lt y s = true) as Hgt.
  { apply Forall_forall. apply (bool_decide_unpack _). vm_compute. exact I. }
  exact (conj Hfull (conj Hgt (full_queue_drops_greater 0 s Inputs.full_queue Hfull Hgt))).
Defined.

Lemma zero_magnitude_isolated_witness :
  let magnitudeMap : gmap Z double := {[ 1%Z := 1 ]} in
  let top := selectNeighbors Reference.pow Inputs.one_pair magnitudeMap in
  PrimFloat.eqb (at_key 0 2 magnitudeMap) 0 = true
  ∧ neighbours 2 top = []
  ∧ ∀ v x, x ∈ neighbours v top → Similarity.userB x ≠ 2%Z.
Proof.
  intros magnitudeMap top.
  assert (PrimFloat.eqb (at_key 0 2 magnitudeMap) 0 = true) as Hzero
    by (vm_compute; reflexivity).
  exact (conj Hzero
           (zero_magnitude_isolated Reference.pow Inputs.one_pair magnitudeMap 2 Hzero)).
Defined.

Lemma neighbours_are_co_raters_witness :
  let m := train Reference.pow Inputs.likeminded in
  let x := Similarity.mk 2 (1 / 11) in
  x ∈ neighbours 1 (m_top m)
  ∧ Double.gtb (Similarity.value x) 0 = true
  ∧ Similarity.userB x ≠ 1%Z
  ∧ ∃ i row row', (1 ≤ i ≤ m_maxItem m)%Z
      ∧ m_ratings m !! 1%Z = Some row ∧ is_Some (row !! i)
      ∧ m_ratings m !! Similarity.userB x = Some row' ∧ is_Some (row' !! i).
Proof.
  intros m x.
  assert (x ∈ neighbours 1 (m_top m)) as Hx.
  { assert (neighbours 1 (m_top m) = [x]) as -> by (vm_compute; reflexivity). left. }
  exact (conj Hx (neighbours_are_co_raters Reference.pow Inputs.likeminded 1 x Hx)).
Defined.

Lemma baseline_when_no_neighbour_rated_witness :
  let m := train Reference.pow Inputs.likeminded in
  neighbours 1 (m_top m) = [Similarity.mk 2 (1 / 11)]
  ∧ (∀ x, x ∈ neighbours 1 (m_top m) →
          m_ratings m !! Similarity.userB x ≫= (.!! 2%Z) = None)
  ∧ (∃ ratings', neighbour_votes m 1 2 = (0, 0, ratings', m_userBias m))
  ∧ (predict m 1 2).1 = query_baseline m 1 2.
Proof.
  intros m.
  assert (neighbours 1 (m_top m) = [Similarity.mk 2 (1 / 11)]) as E
    by (vm_compute; reflexivity).
  assert (∀ x, x ∈ neighbours 1 (m_top m) →
               m_ratings m !! Similarity.userB x ≫= (.!! 2%Z) = None) as Hnone.
  { intros x Hx. rewrite E in Hx. apply list_elem_of_singleton in Hx. subst x.
    vm_compute. reflexivity. }
  exact (conj E (conj Hnone (baseline_when_no_neighbour_rated m 1 2 Hnone))).
Defined.

Lemma item_above_range_witness :
  let m := train Reference.pow Inputs.two_users in
  (m_maxItem m < 3)%Z
  ∧ predict m 1 3
    = (match m_userBias m !! 1%Z with
       | Some bu => m_mean m + bu
       | None => m_mean m
       end, m).
Proof.
  intros m.
  assert (m_maxItem m < 3)%Z as Hi by (apply Z.ltb_lt; vm_compute; reflexivity).
  exact (conj Hi (item_above_range Reference.pow Inputs.two_users 1 3 Hi)).
Defined.

Lemma program_sections_witness :
  ("test dataset" ∉ Inputs.training_text)
  ∧ Forall2 (yields Inputs.extract_rating)
      (filter (λ line, line ≠ "train dataset") Inputs.training_text) Inputs.two_users
  ∧ Forall2 (yields Inputs.extract_query)
      (filter (λ line, line ≠ "") Inputs.query_text) [(1%Z, 1%Z); (3%Z, 2%Z)]
  ∧ program Reference.pow Inputs.extract_rating Inputs.zero_rating
      Inputs.extract_query Inputs.zero_query
      (Inputs.training_text ++ "test dataset" :: Inputs.query_text)
    = main Reference.pow Inputs.two_users [(1%Z, 1%Z); (3%Z, 2%Z)].
Proof.
  assert ("test dataset" ∉ Inputs.training_text) as Hpre.
  { apply (bool_decide_unpack _). vm_compute. exact I. }
  assert (Forall2 (yields Inputs.extract_rating)
            (filter (λ line, line ≠ "train dataset") Inputs.training_text)
            Inputs.two_users) as Hrec.
  { repeat (constructor; [intros before; vm_compute; reflexivity|]). constructor. }
  assert (Forall2 (yields Inputs.extract_query)
            (filter (λ line, line ≠ "") Inputs.query_text) [(1%Z, 1%Z); (3%Z, 2%Z)])
    as Hq.
  { repeat (constructor; [intros before; vm_compute; reflexivity|]). constructor. }
  exact (conj Hpre (conj Hrec (conj Hq
           (program_sections Reference.pow Inputs.extract_rating Inputs.zero_rating
              Inputs.extract_query Inputs.zero_query Inputs.training_text
              Inputs.query_text Inputs.two_users [(1%Z, 1%Z); (3%Z, 2%Z)]
              Hpre Hrec Hq)))).
Defined.

(** A header line after ["test dataset"] is not skipped.  Its extraction
    fails: with the fields that the query before it left in the
    variables, it is answered as the query (0, 2). *)
Lemma header_line_answered_as_query :
  program Reference.pow Inputs.extract_rating Inputs.zero_rating
    Inputs.extract_query Inputs.left_over_query
    (Inputs.training_text ++ "test dataset" :: Inputs.query_text ++ ["train dataset"])
  = main Reference.pow Inputs.two_users [(1%Z, 1%Z); (3%Z, 2%Z); (0%Z, 2%Z)].
Proof. vm_compute. reflexivity. Qed.

Lemma program_without_test_section_witness :
  ("test dataset" ∉ Inputs.training_text)
  ∧ (read_training Inputs.extract_rating Inputs.zero_rating Inputs.training_text 0
       ingest_start).2 = []
  ∧ program Reference.pow Inputs.extract_rating Inputs.zero_rating
      Inputs.extract_query Inputs.zero_query Inputs.training_text = [].
Proof.
  assert ("test dataset" ∉ Inputs.training_text) as Hin.
  { apply (bool_decide_unpack _). vm_compute. exact I. }
  exact (conj Hin
           (program_without_test_section Reference.pow Inputs.extract_rating
              Inputs.zero_rating Inputs.extract_query Inputs.zero_query
              Inputs.training_text Hin)).
Defined.

Lemma accumulation_ignores_list_order_witness :
  let itemToUser := residuals (ingest Inputs.two_users) in
  let reversed := reverse <$> itemToUser in
  Forall2 (≡ₚ) itemToUser reversed
  ∧ Forall (λ listU : list (Z * double), NoDup listU.*1) itemToUser
  ∧ reversed ≠ itemToUser
  ∧ (∀ uA uB, (uA < uB)%Z →
       at_key DotData.new uB (at_key ∅ uA (dotProducts 2 itemToUser))
       = at_key DotData.new uB (at_key ∅ uA (dotProducts 2 reversed)))
  ∧ (∀ u, at_key 0 u (magnitudes 2 itemToUser) = at_key 0 u (magnitudes 2 reversed)).
Proof.
  intros itemToUser reversed.
  assert (Forall2 (≡ₚ) itemToUser reversed) as Hperm.
  { apply Forall2_fmap_r, Forall_Forall2_diag, Forall_forall.
    intros listU _. exact (Permutation_sym (reverse_Permutation listU)). }
  assert (Forall (λ listU : list (Z * double), NoDup listU.*1) itemToUser) as Hnd.
  { apply (bool_decide_unpack _). vm_compute. exact I. }
  assert (reversed ≠ itemToUser) as Hne.
  { intros E. apply (f_equal (λ v, (vec_get [] v 1).*1)) in E. vm_compute in E.
    discriminate. }
  exact (conj Hperm (conj Hnd (conj Hne
           (accumulation_ignores_list_order 2 itemToUser reversed Hperm Hnd)))).
Defined.

Lemma mean_fits_every_rating_witness :
  let m := train Reference.pow Inputs.same_rating in
  (∀ t, t ∈ Inputs.same_rating → t.2 - (m_mean m + 0 + 0) = 0)
  ∧ (∀ u, at_key 0 u (m_userBias m) = 0)
  ∧ (∀ i, vec_get 0 (m_itemBias m) i = 0)
  ∧ (∀ i u res, (0 ≤ i)%Z →
       (u, res) ∈ vec_get [] (residuals (ingest Inputs.same_rating)) i → res = 0)
  ∧ m_top m = ∅.
Proof.
  intros m.
  assert (∀ t, t ∈ Inputs.same_rating → t.2 - (m_mean m + 0 + 0) = 0) as Hfit.
  { apply Forall_forall. repeat (constructor; [vm_compute; reflexivity|]). constructor. }
  exact (conj Hfit (mean_fits_every_rating Reference.pow Inputs.same_rating Hfit)).
Defined.

Lemma votes_are_stored_residuals_witness :
  let m := train Reference.pow Inputs.likeminded in
  let sums := fold_left (stored_vote (vec_get [] (residuals (ingest Inputs.likeminded)) 1))
                (query_pops m 1) (0, 0) in
  (1 ≤ 1 ≤ m_maxItem m)%Z
  ∧ Double.gtb sums.2 0 = true
  ∧ neighbour_votes m 1 1 = (sums.1, sums.2, m_ratings m, m_userBias m)
  ∧ (predict m 1 1).1
    = if Double.gtb sums.2 0 then query_baseline m 1 1 + sums.1 / sums.2
      else query_baseline m 1 1.
Proof.
  intros m sums.
  assert (1 ≤ 1 ≤ m_maxItem m)%Z as Hi by (split; apply Z.leb_le; vm_compute; reflexivity).
  assert (Double.gtb sums.2 0 = true) as Hpos by (vm_compute; reflexivity).
  exact (conj Hi (conj Hpos
           (votes_are_stored_residuals Reference.pow Inputs.likeminded 1 1 Hi))).
Defined.


End Runs.
